(** * ubx_receiver: UBX / NMEA framing, checksums, decoding and command building

    A shallow embedding of [ubx_receiver.py].  Python values are modelled as
    follows.

    - [bytes] objects are lists of [byte]; [str] objects are lists of Unicode
      code points ([N]); Python integers are [Z].
    - An exception is a value of [exn]; code that can raise returns a
      [result].  The text of a [ValueError] is kept as a structured value
      ([value_error]) instead of the formatted string.
    - The receiver object is the record [UBX_receiver]; methods take the
      record and return the updated one.  The serial port is the pair of the
      bytes still waiting to be read and the bytes written so far.
    - [print] and [logging] calls write to neither and are left out. *)

From Stdlib Require Import List NArith ZArith Lia Bool Arith.
From Stdlib Require Import Strings.Byte Strings.String Strings.HexString.
Import ListNotations.

Local Open Scope Z_scope.

(** ** Python runtime *)

Abbreviation bytes := (list byte).
Abbreviation str := (list N).

(** The messages of the [ValueError]s the program and the builtins it calls
    can raise. *)
Inductive value_error : Type :=
| bytes_out_of_range
    (* bytes([n]), n outside range(0, 256) *)
| odd_argument_count
    (* "Number of arguments must be even!" *)
| wrong_checksum (computed declared : list Z)
    (* f"wrong checksum {list(checksum)} is not {list(data[-2:])}" *)
| payload_length_incorrect (actual declared : Z)
    (* f"payload length is incorrect ({len(self.payload)} != {self.length})" *)
| unpack_mismatch (pieces : nat)
    (* a, b = seq  with len(seq) != 2 *)
| invalid_literal (s : str)
    (* int(s, 16) on a malformed literal *)
| nmea_checksum_mismatch (computed parsed : string).
    (* f"checksum {checksum} is not {parsed_checksum}" *)

Inductive exn : Type :=
| ValueError (e : value_error)
| UnicodeDecodeError
| KeyError (k : string)
| TypeError
| IndexError.

(** [except ValueError] also catches [UnicodeDecodeError], a subclass. *)
Definition isinstance_ValueError (e : exn) : bool :=
  match e with
  | ValueError _ | UnicodeDecodeError => true
  | KeyError _ | TypeError | IndexError => false
  end.

Inductive result (A : Type) : Type :=
| Ok (a : A)
| Raise (e : exn).
Arguments Ok {A} a.
Arguments Raise {A} e.

Definition bind {A B : Type} (r : result A) (k : A -> result B) : result B :=
  match r with
  | Ok a => k a
  | Raise e => Raise e
  end.

Declare Scope py_scope.
Delimit Scope py_scope with py.
Notation "x <- r ;; k" := (bind r (fun x => k))
  (at level 61, r at next level, right associativity) : py_scope.
Notation "' p <- r ;; k" := (bind r (fun x => let p := x in k))
  (at level 61, p pattern, r at next level, right associativity) : py_scope.
Local Open Scope py_scope.

Definition is_ok {A : Type} (r : result A) : bool :=
  match r with Ok _ => true | Raise _ => false end.

(** *** Sequences *)

(** [l[:-k]], [l[-k:]] and [l[a:-k]] for [k > 0]; [l[a:b]] for [0 <= a]. *)
Definition drop_last {A : Type} (k : nat) (l : list A) : list A :=
  firstn (List.length l - k) l.
Definition take_last {A : Type} (k : nat) (l : list A) : list A :=
  skipn (List.length l - k) l.
Definition slice {A : Type} (a b : nat) (l : list A) : list A :=
  skipn a (firstn b l).
Definition slice_to_last {A : Type} (a k : nat) (l : list A) : list A :=
  skipn a (drop_last k l).

(** [l[i]] for [0 <= i]. *)
Definition index {A : Type} (l : list A) (i : nat) : result A :=
  match nth_error l i with
  | Some x => Ok x
  | None => Raise IndexError
  end.

(** [range(a, b)] *)
Definition range (a b : nat) : list nat := seq a (b - a).

Definition len {A : Type} (l : list A) : Z := Z.of_nat (List.length l).

(** *** Bytes and integers *)

Definition byte_int (b : byte) : Z := Z.of_N (Byte.to_N b).

Definition list_ints (b : bytes) : list Z := map byte_int b.

(** [bytes([n])]: one byte, or [ValueError] outside [range(0, 256)]. *)
Definition byte_of_int (n : Z) : result byte :=
  if (n <? 0) then Raise (ValueError bytes_out_of_range)
  else match Byte.of_N (Z.to_N n) with
       | Some b => Ok b
       | None => Raise (ValueError bytes_out_of_range)
       end.

(** [bytes(l)] for a list of integers. *)
Fixpoint bytes_of_ints (l : list Z) : result bytes :=
  match l with
  | [] => Ok []
  | n :: t => b <- byte_of_int n ;; r <- bytes_of_ints t ;; Ok (b :: r)
  end.

(** [int.from_bytes(b, 'little')] *)
Fixpoint int_from_bytes_little (b : bytes) : Z :=
  match b with
  | [] => 0
  | x :: t => byte_int x + 256 * int_from_bytes_little t
  end.

Definition bytes_eqb (a b : bytes) : bool :=
  if list_eq_dec Byte.byte_eq_dec a b then true else false.

Definition ints_eqb (a b : list Z) : bool :=
  if list_eq_dec Z.eq_dec a b then true else false.

(** ** Message registry *)

(** The keys of [ubx_msg_dict] are [bytes] objects and the string
    ["classname"]; its values are strings and nested dictionaries.  A caller
    of [safeget] can also pass an integer, which indexes a string. *)
Inductive key : Type :=
| KBytes (b : bytes)
| KStr (s : string)
| KInt (n : Z).

#[local] Unset Elimination Schemes.
Inductive pyobj : Type :=
| PStr (s : string)
| PDict (d : list (key * pyobj)).
#[local] Set Elimination Schemes.

Definition key_eqb (a b : key) : bool :=
  match a, b with
  | KBytes x, KBytes y => bytes_eqb x y
  | KStr x, KStr y => String.eqb x y
  | KInt x, KInt y => Z.eqb x y
  | _, _ => false
  end.

Definition ubx_msg_dict : pyobj :=
  PDict
    [ (KBytes [x01], PDict [ (KStr "classname", PStr "NAV") ]);
      (KBytes [x02], PDict [ (KStr "classname", PStr "RXM");
                             (KBytes [x14], PStr "MEASX");
                             (KBytes [x41], PStr "PMREQ");
                             (KBytes [x15], PStr "RAWX");
                             (KBytes [x59], PStr "RLM");
                             (KBytes [x13], PStr "SFRBX") ]);
      (KBytes [x04], PDict [ (KStr "classname", PStr "INF") ]);
      (KBytes [x05], PDict [ (KStr "classname", PStr "ACK");
                             (KBytes [x00], PStr "NAK");
                             (KBytes [x01], PStr "ACK") ]);
      (KBytes [x06], PDict [ (KStr "classname", PStr "CFG") ]);
      (KBytes [x09], PDict [ (KStr "classname", PStr "UPD") ]);
      (KBytes [x0a], PDict [ (KStr "classname", PStr "MON") ]);
      (KBytes [x0d], PDict [ (KStr "classname", PStr "TIM") ]);
      (KBytes [x13], PDict [ (KStr "classname", PStr "MGA") ]);
      (KBytes [x21], PDict [ (KStr "classname", PStr "LOG") ]);
      (KBytes [x27], PDict [ (KStr "classname", PStr "SEC") ]) ].

(** [s[n]] for a string [s] and an integer [n]: the character at [n],
    counted from the end when [n] is negative, or [IndexError]. *)
Definition str_getitem (s : string) (n : Z) : result pyobj :=
  let l := Z.of_nat (String.length s) in
  let i := if n <? 0 then n + l else n in
  if (i <? 0) || (l <=? i) then Raise IndexError
  else match String.get (Z.to_nat i) s with
       | Some c => Ok (PStr (String c EmptyString))
       | None => Raise IndexError
       end.

(** [d[k]]: [KeyError] when a dictionary lacks the key; a string is indexed
    by an integer, and indexing it with a key that is no integer is a
    [TypeError]. *)
Definition getitem (d : pyobj) (k : key) : result pyobj :=
  match d with
  | PDict kvs =>
      match find (fun kv => key_eqb (fst kv) k) kvs with
      | Some kv => Ok (snd kv)
      | None => Raise (KeyError "key")
      end
  | PStr s =>
      match k with
      | KInt n => str_getitem s n
      | KBytes _ | KStr _ => Raise TypeError
      end
  end.

(** [safeget]: [None] as soon as a key is missing. *)
Fixpoint safeget (dict : pyobj) (keys : list key) : result (option pyobj) :=
  match keys with
  | [] => Ok (Some dict)
  | k :: rest =>
      match getitem dict k with
      | Ok d => safeget d rest
      | Raise (KeyError _) => Ok None
      | Raise e => Raise e
      end
  end.

(** [x or "unknown"]: [None], the empty string and the empty dictionary are
    false. *)
Definition or_unknown (x : option pyobj) : pyobj :=
  match x with
  | None | Some (PStr EmptyString) | Some (PDict []) => PStr "unknown"
  | Some v => v
  end.

Definition ubx_config_dict : list (string * bytes) :=
  [ ("GLL_UART1", [xca; x00; x91; x20]);
    ("GSV_UART1", [xc5; x00; x91; x20]);
    ("GGA_UART1", [xbb; x00; x91; x20]);
    ("GSA_UART1", [xc0; x00; x91; x20]);
    ("GST_UART1", [xd4; x00; x91; x20]);
    ("RMC_UART1", [xac; x00; x91; x20]);
    ("ZDA_UART1", [xd9; x00; x91; x20]);
    ("VTG_UART1", [xb1; x00; x91; x20]);
    ("RAWX_UART1", [xa5; x02; x91; x20]);
    ("SFRBX_UART1", [x32; x02; x91; x20]);
    ("NAVSPG-DYNMODEL", [x21; x00; x11; x20]) ]%string.

Definition config_lookup (name : string) : result bytes :=
  match find (fun kv => String.eqb (fst kv) name) ubx_config_dict with
  | Some kv => Ok (snd kv)
  | None => Raise (KeyError name)
  end.

(** ** Checksum-UBX *)

(** [fletcher_checksum(msg)]: the sums run over [msg[2:]], as unbounded
    integers, and are masked to eight bits after the loop. *)
Definition fletcher_checksum (msg : bytes) : result bytes :=
  let '(CK_A, CK_B) :=
    fold_left
      (fun (acc : Z * Z) (i : nat) =>
         let '(CK_A, CK_B) := acc in
         let CK_A := CK_A + byte_int (nth i msg x00) in
         let CK_B := CK_B + CK_A in
         (CK_A, CK_B))
      (range 2 (List.length msg)) (0, 0) in
  let CK_A := Z.land CK_A 0xFF in
  let CK_B := Z.land CK_B 0xFF in
  CK_A <- bytes_of_ints [CK_A] ;;
  CK_B <- bytes_of_ints [CK_B] ;;
  Ok (CK_A ++ CK_B).

(** ** Frame decoder: UBX *)

Record UBX_message : Type := {
  correct : bool;
  raw_data : bytes;
  ubx_class : Z;
  ubx_class_name : pyobj;
  ubx_id : Z;
  ubx_id_name : pyobj;
  length_field : Z;
  payload : bytes
}.

Definition sync : bytes := [xb5; x62].

(** The constructor accepts a [bytes] object or a list of integers. *)
Inductive ubx_data : Type :=
| Bytes (b : bytes)
| IntList (l : list Z).

Definition UBX_message_init (data : ubx_data) : result UBX_message :=
  data <- match data with
          | IntList l => bytes_of_ints l
          | Bytes b => Ok b
          end ;;
  let data := if bytes_eqb (firstn 2 data) sync then skipn 2 data else data in
  let raw_data := sync ++ data in
  checksum <- fletcher_checksum (drop_last 2 raw_data) ;;
  if negb (ints_eqb (list_ints checksum) (list_ints (take_last 2 data)))
  then Raise (ValueError (wrong_checksum (list_ints checksum)
                                          (list_ints (take_last 2 data))))
  else
    ubx_class <- index (list_ints data) 0 ;;
    class_key <- bytes_of_ints [ubx_class] ;;
    class_name <- safeget ubx_msg_dict [KBytes class_key; KStr "classname"] ;;
    ubx_id <- index (list_ints data) 1 ;;
    class_key <- bytes_of_ints [ubx_class] ;;
    id_key <- bytes_of_ints [ubx_id] ;;
    id_name <- safeget ubx_msg_dict [KBytes class_key; KBytes id_key] ;;
    let length := int_from_bytes_little (slice 2 4 data) in
    let payload := slice_to_last 4 2 data in
    if negb (len payload =? length)
    then Raise (ValueError (payload_length_incorrect (len payload) length))
    else Ok {| correct := true;
               raw_data := raw_data;
               ubx_class := ubx_class;
               ubx_class_name := or_unknown class_name;
               ubx_id := ubx_id;
               ubx_id_name := or_unknown id_name;
               length_field := length;
               payload := payload |}.

(** ** Text builtins used by the NMEA decoder *)

Local Open Scope N_scope.

Definition byte_in (lo hi : N) (b : byte) : bool :=
  (lo <=? Byte.to_N b) && (Byte.to_N b <=? hi).

(** [bytes.decode()]: strict UTF-8.  Overlong forms, surrogates and code
    points above U+10FFFF are refused, as are stray continuation bytes and
    truncated sequences. *)
Fixpoint decode (b : bytes) : result str :=
  match b with
  | [] => Ok []
  | b0 :: t0 =>
      let n0 := Byte.to_N b0 in
      if n0 <? 0x80 then
        s <- decode t0 ;; Ok (n0 :: s)
      else if byte_in 0xC2 0xDF b0 then
        match t0 with
        | b1 :: t1 =>
            if byte_in 0x80 0xBF b1 then
              s <- decode t1 ;;
              Ok ((n0 - 0xC0) * 64 + (Byte.to_N b1 - 0x80) :: s)
            else Raise UnicodeDecodeError
        | _ => Raise UnicodeDecodeError
        end
      else if byte_in 0xE0 0xEF b0 then
        match t0 with
        | b1 :: b2 :: t2 =>
            let lo := if n0 =? 0xE0 then 0xA0 else 0x80 in
            let hi := if n0 =? 0xED then 0x9F else 0xBF in
            if byte_in lo hi b1 && byte_in 0x80 0xBF b2 then
              s <- decode t2 ;;
              Ok ((n0 - 0xE0) * 4096 + (Byte.to_N b1 - 0x80) * 64
                  + (Byte.to_N b2 - 0x80) :: s)
            else Raise UnicodeDecodeError
        | _ => Raise UnicodeDecodeError
        end
      else if byte_in 0xF0 0xF4 b0 then
        match t0 with
        | b1 :: b2 :: b3 :: t3 =>
            let lo := if n0 =? 0xF0 then 0x90 else 0x80 in
            let hi := if n0 =? 0xF4 then 0x8F else 0xBF in
            if byte_in lo hi b1 && byte_in 0x80 0xBF b2 && byte_in 0x80 0xBF b3
            then
              s <- decode t3 ;;
              Ok ((n0 - 0xF0) * 262144 + (Byte.to_N b1 - 0x80) * 4096
                  + (Byte.to_N b2 - 0x80) * 64 + (Byte.to_N b3 - 0x80) :: s)
            else Raise UnicodeDecodeError
        | _ => Raise UnicodeDecodeError
        end
      else Raise UnicodeDecodeError
  end.

(** [s.split(sep)] for a one-character separator. *)
Fixpoint split (sep : N) (s : str) : list str :=
  match s with
  | [] => [[]]
  | c :: t =>
      if c =? sep then [] :: split sep t
      else match split sep t with
           | piece :: rest => (c :: piece) :: rest
           | [] => [[c]]
           end
  end.

(** [a, b = seq] *)
Definition unpack2 {A : Type} (seq : list A) : result (A * A) :=
  match seq with
  | [a; b] => Ok (a, b)
  | _ => Raise (ValueError (unpack_mismatch (List.length seq)))
  end.

(** [ord(c)] *)
Definition ord (c : N) : Z := Z.of_N c.

(** [hex(n)]: ["0x1f"], ["-0x1f"], ["0x0"]; lower-case digits. *)
Definition hex (n : Z) : string := HexString.of_Z n.

(** *** [int(s, 16)]

    CPython first rewrites a non-ASCII string: a character below 127 is
    kept, a Unicode space becomes [' '], a Unicode decimal digit becomes
    the ASCII digit of its value, and anything else becomes ['?'] (where no
    literal can continue).  The tables are those of Unicode 14.0. *)

Definition unicode_spaces : list N :=
  [ 0x85; 0xA0; 0x1680; 0x2000; 0x2001; 0x2002; 0x2003; 0x2004; 0x2005;
    0x2006; 0x2007; 0x2008; 0x2009; 0x200A; 0x2028; 0x2029; 0x202F; 0x205F;
    0x3000 ].

(** The code point of digit zero in every block of ten decimal digits. *)
Definition unicode_digit_zeros : list N :=
  [ 0x660; 0x6F0; 0x7C0; 0x966; 0x9E6; 0xA66; 0xAE6; 0xB66; 0xBE6; 0xC66;
    0xCE6; 0xD66; 0xDE6; 0xE50; 0xED0; 0xF20; 0x1040; 0x1090; 0x17E0;
    0x1810; 0x1946; 0x19D0; 0x1A80; 0x1A90; 0x1B50; 0x1BB0; 0x1C40; 0x1C50;
    0xA620; 0xA8D0; 0xA900; 0xA9D0; 0xA9F0; 0xAA50; 0xABF0; 0xFF10;
    0x104A0; 0x10D30; 0x11066; 0x110F0; 0x11136; 0x111D0; 0x112F0; 0x11450;
    0x114D0; 0x11650; 0x116C0; 0x11730; 0x118E0; 0x11950; 0x11C50; 0x11D50;
    0x11DA0; 0x16A60; 0x16AC0; 0x16B50; 0x1D7CE; 0x1D7D8; 0x1D7E2; 0x1D7EC;
    0x1D7F6; 0x1E140; 0x1E2F0; 0x1E950; 0x1FBF0 ].

Definition unicode_isspace (c : N) : bool :=
  existsb (N.eqb c) unicode_spaces.

Definition unicode_todecimal (c : N) : option N :=
  match find (fun z => (z <=? c) && (c <? z + 10)) unicode_digit_zeros with
  | Some z => Some (c - z)
  | None => None
  end.

Definition transform_char (c : N) : N :=
  if c <? 127 then c
  else if unicode_isspace c then 0x20
  else match unicode_todecimal c with
       | Some d => 0x30 + d
       | None => 0x3F
       end.

(** ASCII white space: space, and tab to carriage return. *)
Definition ascii_isspace (c : N) : bool :=
  (c =? 0x20) || ((0x09 <=? c) && (c <=? 0x0D)).

Fixpoint skip_spaces (s : str) : str :=
  match s with
  | c :: t => if ascii_isspace c then skip_spaces t else s
  | [] => []
  end.

(** The value of a digit in base 16, if it is one. *)
Definition hex_digit (c : N) : option Z :=
  if (0x30 <=? c) && (c <=? 0x39) then Some (Z.of_N (c - 0x30))
  else if (0x61 <=? c) && (c <=? 0x66) then Some (Z.of_N (c - 0x61 + 10))
  else if (0x41 <=? c) && (c <=? 0x46) then Some (Z.of_N (c - 0x41 + 10))
  else None.

Definition underscore : N := 0x5F.

(** The digits of the literal: single underscores may separate digits; a
    doubled or trailing underscore is an error ([None]).  Returns the value,
    the number of digits read and the rest of the string. *)
Fixpoint read_digits (s : str) (prev_underscore : bool) (acc : Z) (digits : nat)
  : option (Z * nat * str) :=
  match s with
  | c :: t =>
      if c =? underscore then
        if prev_underscore then None else read_digits t true acc digits
      else
        match hex_digit c with
        | Some d => read_digits t false (16 * acc + d)%Z (S digits)
        | None => if prev_underscore then None else Some (acc, digits, s)
        end
  | [] => if prev_underscore then None else Some (acc, digits, s)
  end.

Definition int16 (s : str) : result Z :=
  let error := Raise (ValueError (invalid_literal s)) in
  let p := skip_spaces (map transform_char s) in
  let '(negative, p) :=
    match p with
    | c :: t => if c =? 0x2B then (false, t)
                else if c =? 0x2D then (true, t)
                else (false, p)
    | [] => (false, p)
    end in
  let p :=
    match p with
    | c0 :: c1 :: t =>
        if (c0 =? 0x30) && ((c1 =? 0x78) || (c1 =? 0x58)) then
          match t with
          | u :: t' => if u =? underscore then t' else t
          | [] => t
          end
        else p
    | _ => p
    end in
  match p with
  | c :: _ =>
      if c =? underscore then error
      else
        match read_digits p false 0%Z 0%nat with
        | Some (v, S _, rest) =>
            match skip_spaces rest with
            | [] => Ok (if negative then (- v)%Z else v)
            | _ :: _ => error
            end
        | _ => error
        end
  | [] => error
  end.

Local Close Scope N_scope.

(** ** Frame decoder: NMEA *)

Record NMEA_message : Type := {
  nmea_correct : bool;
  nmea_data : str;
  nmea_raw_data : str;
  talker_id : str;
  msg_type : str;
  checksum : str
}.

(** The constructor accepts a [str] or a [bytes] object. *)
Inductive nmea_input : Type :=
| Str (s : str)
| Encoded (b : bytes).

Definition star : N := 0x2A.

(** [if type(data) != str: data = data.decode()] *)
Definition as_str (data : nmea_input) : result str :=
  match data with
  | Str s => Ok s
  | Encoded b => decode b
  end.

Definition NMEA_message_init (data : nmea_input) : result NMEA_message :=
  data <- as_str data ;;
  let raw_data := data in
  let talker_id := slice 0 2 data in
  let msg_type := slice 2 5 data in
  let self_data := slice_to_last 6 5 data in
  '(nmea_data, chk) <- unpack2 (split star data) ;;
  let checksum := fold_left (fun checksum s => Z.lxor checksum (ord s)) nmea_data 0 in
  let checksum := hex checksum in
  let self_checksum := drop_last 2 chk in
  parsed <- int16 self_checksum ;;
  let parsed_checksum := hex parsed in
  if negb (String.eqb checksum parsed_checksum)
  then Raise (ValueError (nmea_checksum_mismatch checksum parsed_checksum))
  else Ok {| nmea_correct := false;
             nmea_data := self_data;
             nmea_raw_data := raw_data;
             talker_id := talker_id;
             msg_type := msg_type;
             checksum := self_checksum |}.

(** ** The receiver: stream parser and message builder *)

(** The serial port: the bytes that [read] will deliver (their number is
    [in_waiting]) and the bytes handed to [write] so far. *)
Record Port : Type := {
  in_waiting : bytes;
  written : bytes
}.

(** [current_parse] is [None], ["UBX"] or ["NMEA"]. *)
Inductive mode : Type := UBX | NMEA.

Definition mode_eqb (a b : mode) : bool :=
  match a, b with
  | UBX, UBX | NMEA, NMEA => true
  | _, _ => false
  end.

(** [parse_data] is a list of the [bytes] objects that [read] returned, one
    byte each; [last_byte] is [None] until a byte was consumed while idle. *)
Record UBX_receiver : Type := {
  port : Port;
  current_parse : option mode;
  parse_data : list bytes;
  last_byte : option bytes
}.

Definition with_port (self : UBX_receiver) (p : Port) : UBX_receiver :=
  {| port := p;
     current_parse := current_parse self;
     parse_data := parse_data self;
     last_byte := last_byte self |}.

Definition with_parse (self : UBX_receiver) (m : option mode) (d : list bytes)
  : UBX_receiver :=
  {| port := port self;
     current_parse := m;
     parse_data := d;
     last_byte := last_byte self |}.

Definition with_last_byte (self : UBX_receiver) (b : bytes) : UBX_receiver :=
  {| port := port self;
     current_parse := current_parse self;
     parse_data := parse_data self;
     last_byte := Some b |}.

Definition reset_data (self : UBX_receiver) : UBX_receiver :=
  with_parse self None [].

(** [self.last_byte == b] *)
Definition last_byte_is (self : UBX_receiver) (b : bytes) : bool :=
  match last_byte self with
  | Some l => bytes_eqb l b
  | None => false
  end.

Definition current_parse_is (self : UBX_receiver) (m : mode) : bool :=
  match current_parse self with
  | Some c => mode_eqb c m
  | None => false
  end.

(** What [parse] hands back besides [None]: a decoded message, or the text
    of a decode failure. *)
Inductive parsed : Type :=
| ubx_message (m : UBX_message)
| nmea_message (m : NMEA_message)
| invalid_ubx_message (err : exn)
    (* f"invalid ubx-message! ({err})" *)
| invalid_nmea_message.
    (* "invalid nmea-message!" *)

(** How one turn of the [while] loop ends: [parse] returns, an exception
    leaves it, or the loop goes on. *)
Inductive turn : Type :=
| Return (v : option parsed)
| Propagate (e : exn)
| Next.

Definition idle_turn (self : UBX_receiver) (byte : bytes) : UBX_receiver * turn :=
  let self :=
    if bytes_eqb byte [x62] && last_byte_is self [xb5] then
      with_parse self (Some UBX) []
    else if bytes_eqb byte ["G"%byte] && last_byte_is self ["$"%byte] then
      with_parse self (Some NMEA) [["G"%byte]]
    else self in
  (with_last_byte self byte, Return None).

Definition ubx_turn (self : UBX_receiver) (byte : bytes) : UBX_receiver * turn :=
  if current_parse_is self UBX then
    let self := with_parse self (current_parse self) (parse_data self ++ [byte]) in
    if (4 <=? len (parse_data self)) then
      match index (parse_data self) 2, index (parse_data self) 3 with
      | Ok lo, Ok hi =>
          let length := int_from_bytes_little (lo ++ hi) in
          let ubx_length := length in
          if (len (parse_data self) =? ubx_length + 6) then
            let data_string := List.concat (parse_data self) in
            match UBX_message_init (Bytes data_string) with
            | Ok message =>
                (reset_data self, Return (Some (ubx_message message)))
            | Raise err =>
                if isinstance_ValueError err then
                  (reset_data self, Return (Some (invalid_ubx_message err)))
                else (self, Propagate err)
            end
          else (self, Next)
      | Raise e, _ | _, Raise e => (self, Propagate e)
      end
    else (self, Next)
  else (self, Next).

Definition nmea_turn (self : UBX_receiver) (byte : bytes) : UBX_receiver * turn :=
  if current_parse_is self NMEA then
    let self := with_parse self (current_parse self) (parse_data self ++ [byte]) in
    if bytes_eqb byte [x0a] then
      let data_string := List.concat (parse_data self) in
      match NMEA_message_init (Encoded data_string) with
      | Ok message =>
          (reset_data self, Return (Some (nmea_message message)))
      | Raise err =>
          if isinstance_ValueError err then
            (reset_data self, Return (Some invalid_nmea_message))
          else (self, Propagate err)
      end
    else (self, Next)
  else (self, Next).

(** The body of the loop, after [byte = self.port.read()]. *)
Definition loop_body (self : UBX_receiver) (byte : bytes) : UBX_receiver * turn :=
  match current_parse self with
  | None => idle_turn self byte
  | Some _ =>
      match ubx_turn self byte with
      | (self, Next) => nmea_turn self byte
      | done => done
      end
  end.

(** [parse]: the loop runs while bytes are waiting; each turn reads one. *)
Fixpoint parse_loop (waiting : bytes) (self : UBX_receiver)
  : UBX_receiver * result (option parsed) :=
  match waiting with
  | [] => (self, Ok None)
  | b :: rest =>
      let self :=
        with_port self {| in_waiting := rest; written := written (port self) |} in
      match loop_body self [b] with
      | (self, Next) => parse_loop rest self
      | (self, Return v) => (self, Ok v)
      | (self, Propagate e) => (self, Raise e)
      end
  end.

Definition parse (self : UBX_receiver) : UBX_receiver * result (option parsed) :=
  parse_loop (in_waiting (port self)) self.

(** [self.port.write(msg)] *)
Definition write (self : UBX_receiver) (msg : bytes) : UBX_receiver :=
  with_port self {| in_waiting := in_waiting (port self);
                    written := written (port self) ++ msg |}.

(** [ubx_msg(c, id, payload)]; [c] and [id] are [bytes] objects. *)
Definition ubx_msg (c id payload : bytes) : result bytes :=
  length <- bytes_of_ints [len payload] ;;
  let length := if (len length <? 2) then length ++ [x00] else length in
  let msg := sync ++ c ++ id ++ length ++ payload in
  checksum <- fletcher_checksum msg ;;
  let msg := msg ++ checksum in
  Ok msg.

Definition reset (self : UBX_receiver) : UBX_receiver * result unit :=
  match ubx_msg [x06] [x04] [x00; x00; x00; x00] with
  | Ok msg => (write self msg, Ok tt)
  | Raise e => (self, Raise e)
  end.

(** An argument of [set_val]: an integer, a string, a [bytes] object,
    another bytes-like object (a [bytearray], a [memoryview] of bytes) with
    the given contents, or an object of any other type, which [bytes]
    cannot be extended with ([None], a [bool], a [float], a list).  The sum
    [payload + arg] of a [bytes] object and a bytes-like object is a [bytes]
    object. *)
Inductive arg : Type :=
| AInt (n : Z)
| AStr (s : string)
| ABytes (b : bytes)
| ABuffer (b : bytes)
| AOther.

(** The [for] loop of [set_val]. *)
Fixpoint set_val_payload (args : list arg) (payload : bytes) : result bytes :=
  match args with
  | [] => Ok payload
  | a :: rest =>
      a <- match a with
           | AInt n => b <- bytes_of_ints [n] ;; Ok (ABytes b)
           | AStr s => b <- config_lookup s ;; Ok (ABytes b)
           | other => Ok other
           end ;;
      payload <- match a with
                 | ABytes b | ABuffer b => Ok (payload ++ b)
                 | _ => Raise TypeError
                 end ;;
      set_val_payload rest payload
  end.

Definition set_val (self : UBX_receiver) (args : list arg)
  : UBX_receiver * result unit :=
  if negb (Z.eqb (len args mod 2) 0) then
    (self, Raise (ValueError odd_argument_count))
  else
    let c := [x06] in
    let id := [x8a] in
    let payload := [x00; x01; x00; x00] in
    match (payload <- set_val_payload args payload ;; ubx_msg c id payload) with
    | Ok msg => (write self msg, Ok tt)
    | Raise e => (self, Raise e)
    end.

(** [ubx_config_disable] and [ubx_config_enable]: every name is looked up
    before [set_val] is called. *)
Fixpoint config_pairs (names : list string) (value : bytes) : result (list arg) :=
  match names with
  | [] => Ok []
  | name :: rest =>
      k <- config_lookup name ;;
      vals <- config_pairs rest value ;;
      Ok (ABytes k :: ABytes value :: vals)
  end.

Definition ubx_config_disable (self : UBX_receiver) (names : list string)
  : UBX_receiver * result unit :=
  match config_pairs names [x00] with
  | Ok vals => set_val self vals
  | Raise e => (self, Raise e)
  end.

Definition ubx_config_enable (self : UBX_receiver) (names : list string)
  : UBX_receiver * result unit :=
  match config_pairs names [x01] with
  | Ok vals => set_val self vals
  | Raise e => (self, Raise e)
  end.

(** [ubx_config_disable_all] and [ubx_config_enable_all]: the keys of
    [ubx_config_dict], in the order of the dictionary. *)
Definition ubx_config_disable_all (self : UBX_receiver)
  : UBX_receiver * result unit :=
  ubx_config_disable self (map fst ubx_config_dict).

Definition ubx_config_enable_all (self : UBX_receiver)
  : UBX_receiver * result unit :=
  ubx_config_enable self (map fst ubx_config_dict).

(** A receiver as the class attributes leave it, on a given port. *)
Definition new_receiver (p : Port) : UBX_receiver :=
  {| port := p; current_parse := None; parse_data := []; last_byte := None |}.

(** ** Notions the properties are stated with *)

(** The Fletcher recurrence as the specification words it: two eight-bit
    accumulators, each reduced modulo 256 at every byte. *)
Fixpoint fletcher8_from (A B : Z) (s : bytes) : Z * Z :=
  match s with
  | [] => (A, B)
  | b :: t =>
      let A := (A + byte_int b) mod 256 in
      let B := (B + A) mod 256 in
      fletcher8_from A B t
  end.

Definition fletcher8 (s : bytes) : Z * Z := fletcher8_from 0 0 s.

(** The sums of the loop, read off the bytes instead of the indices. *)
Definition sums_step (acc : Z * Z) (b : byte) : Z * Z :=
  let '(A, B) := acc in (A + byte_int b, B + (A + byte_int b)).

(** The running XOR of the specification: the character codes of the body,
    starting from 0. *)
Fixpoint xor_codes (body : str) : Z :=
  match body with
  | [] => 0
  | c :: t => Z.lxor (Z.of_N c) (xor_codes t)
  end.

(** A hexadecimal digit and its value, whatever the case of a letter. *)
Definition is_hex_digit (c : N) : bool :=
  existsb (N.eqb c)
    [ 48; 49; 50; 51; 52; 53; 54; 55; 56; 57;
      97; 98; 99; 100; 101; 102; 65; 66; 67; 68; 69; 70 ]%N.

Definition hex_value (c : N) : Z :=
  if (c <=? 57)%N then Z.of_N c - 48
  else if (c <=? 70)%N then Z.of_N c - 55
  else Z.of_N c - 87.

(** The other case of a letter; other characters are left alone. *)
Definition swap_case (c : N) : N :=
  if ((65 <=? c) && (c <=? 90))%N then (c + 32)%N
  else if ((97 <=? c) && (c <=? 122))%N then (c - 32)%N
  else c.

(** The number of ['*'] characters in what the NMEA constructor is given. *)
Definition star_count (data : nmea_input) : nat :=
  match data with
  | Str s => count_occ N.eq_dec s star
  | Encoded b => count_occ Byte.byte_eq_dec b "*"%byte
  end.

(** A frame as the UBX constructor sees it once a leading sync marker is
    removed. *)
Definition frame_body (data : bytes) : bytes :=
  if bytes_eqb (firstn 2 data) sync then skipn 2 data else data.

(** The two checksum bytes of a frame body (class through payload). *)
Definition expected_checksum (body : bytes) : bytes :=
  match fletcher_checksum (sync ++ body) with
  | Ok c => c
  | Raise _ => []
  end.

(** The checksum test of the decoder on a frame body [d]: the bytes before
    the last two against the last two. *)
Definition checksum_verifies (d : bytes) : bool :=
  ints_eqb (list_ints (expected_checksum (drop_last 2 d)))
           (list_ints (take_last 2 d)).

(** The name the registry gives to a key pair, or ["unknown"]. *)
Definition registry_name (k1 : bytes) (k2 : key) : pyobj :=
  match safeget ubx_msg_dict [KBytes k1; k2] with
  | Ok o => or_unknown o
  | Raise _ => PStr "unknown"
  end.

(** The message read off a frame body [d] (class, id, length, payload and
    checksum), checks apart. *)
Definition decoded (d : bytes) : UBX_message :=
  {| correct := true;
     raw_data := sync ++ d;
     ubx_class := byte_int (nth 0 d x00);
     ubx_class_name := registry_name [nth 0 d x00] (KStr "classname");
     ubx_id := byte_int (nth 1 d x00);
     ubx_id_name := registry_name [nth 0 d x00] (KBytes [nth 1 d x00]);
     length_field := int_from_bytes_little (slice 2 4 d);
     payload := slice_to_last 4 2 d |}.

(** The NMEA message read off a sentence and its checksum field. *)
Definition nmea_decoded (text field : str) : NMEA_message :=
  {| nmea_correct := false;
     nmea_data := slice_to_last 6 5 text;
     nmea_raw_data := text;
     talker_id := slice 0 2 text;
     msg_type := slice 2 5 text;
     checksum := field |}.

(** A character and the bytes that encode it: one byte below 128, or
    several bytes, all at least 128, for a character that is at least 128. *)
Inductive char_encoding : bytes -> N -> Prop :=
| enc_ascii (b : byte) :
    (Byte.to_N b < 128)%N -> char_encoding [b] (Byte.to_N b)
| enc_multi (pre : bytes) (c : N) :
    (128 <= c)%N -> Forall (fun b => (128 <= Byte.to_N b)%N) pre -> pre <> [] ->
    char_encoding pre c.

(** The hexadecimal digits, for case analysis. *)
Definition hex_digit_codes : list N :=
  [ 48; 49; 50; 51; 52; 53; 54; 55; 56; 57;
    97; 98; 99; 100; 101; 102; 65; 66; 67; 68; 69; 70 ]%N.

(** One byte arrives at the port and [parse] is called. *)
Definition feed (self : UBX_receiver) (b : byte)
  : UBX_receiver * result (option parsed) :=
  parse (with_port self {| in_waiting := [b]; written := written (port self) |}).

(** A sequence of bytes fed one at a time; what every call returned. *)
Fixpoint feed_each (self : UBX_receiver) (bs : bytes)
  : UBX_receiver * list (result (option parsed)) :=
  match bs with
  | [] => (self, [])
  | b :: t =>
      let '(self, r) := feed self b in
      let '(self, rs) := feed_each self t in
      (self, r :: rs)
  end.

(** The length a UBX frame buffer declares in its third and fourth
    elements. *)
Definition declared_length (buffer : list bytes) : Z :=
  int_from_bytes_little (nth 2 buffer [] ++ nth 3 buffer []).

(** What [parse] hands back for a completed frame buffer. *)
Definition frame_result (m : mode) (buffer : list bytes) : parsed :=
  match m with
  | UBX =>
      match UBX_message_init (Bytes (List.concat buffer)) with
      | Ok message => ubx_message message
      | Raise err => invalid_ubx_message err
      end
  | NMEA =>
      match NMEA_message_init (Encoded (List.concat buffer)) with
      | Ok message => nmea_message message
      | Raise _ => invalid_nmea_message
      end
  end.

(** The frame buffer after the bytes [l] were read one at a time. *)
Definition singletons (l : bytes) : list bytes := map (fun x => [x]) l.

(** The length field of a frame that starts at the class byte, and what
    makes the parser take the frame for complete. *)
Definition frame_length_field (frame : bytes) : Z :=
  int_from_bytes_little (slice 2 4 frame).

Definition complete_frame (frame : bytes) : Prop :=
  4 <= len frame /\ len frame = frame_length_field frame + 6.

(** The sum of the bytes of a sequence. *)
Definition byte_sum (s : bytes) : Z :=
  fold_right (fun b acc => byte_int b + acc) 0 s.

(** The class bytes that [ubx_msg_dict] has an entry for. *)
Definition registered_classes : list Z :=
  [1; 2; 4; 5; 6; 9; 10; 13; 19; 33; 39].

(** The bytes [set_val] appends for an argument that it accepts. *)
Definition arg_bytes (a : arg) : option bytes :=
  match a with
  | AInt n => match byte_of_int n with Ok b => Some [b] | Raise _ => None end
  | AStr s => match config_lookup s with Ok b => Some b | Raise _ => None end
  | ABytes b | ABuffer b => Some b
  | AOther => None
  end.

(** The bytes [set_val] appends for a list of arguments, when it accepts
    them all. *)
Fixpoint args_payload (args : list arg) : option bytes :=
  match args with
  | [] => Some []
  | a :: rest =>
      match arg_bytes a, args_payload rest with
      | Some x, Some y => Some (x ++ y)
      | _, _ => None
      end
  end.


(** The key and value bytes of a list of configuration names. *)
Definition key_value_bytes (value : bytes) (names : list string) : bytes :=
  flat_map (fun name => match config_lookup name with
                        | Ok k => k ++ value
                        | Raise _ => []
                        end) names.

(** The header that every payload of [set_val] starts with. *)
Definition valset_header : bytes := [x00; x01; x00; x00].

(** The state of the parser between frames. *)
Definition idle_state (p : Port) (last : option bytes) : UBX_receiver :=
  {| port := p; current_parse := None; parse_data := []; last_byte := last |}.

Definition idle_port : Port := {| in_waiting := []; written := [] |}.

(** An ASCII string literal as a [bytes] object and as a [str]. *)
Definition ascii_bytes (s : string) : bytes := list_byte_of_string s.
Definition ascii_str (s : string) : str := map Byte.to_N (ascii_bytes s).

Definition CR : byte := x0d.
Definition LF : byte := x0a.

(** Sample frames: the configuration-reset command without its sync marker,
    and the body of an RMC sentence, whose checksum is 0x6A. *)
Definition reset_frame : bytes :=
  [x06; x04; x04; x00; x00; x00; x00; x00; x0e; x64].

Definition rmc_body : string :=
  "GPRMC,123519,A,4807.038,N,01131.000,E,022.4,084.4,230394,003.1,W".

Definition rmc_sentence (field : string) : bytes :=
  ascii_bytes rmc_body ++ ascii_bytes "*" ++ ascii_bytes field ++ [CR; LF].

Definition dollar : N := 36.

(** The sentence with the checksum field [6A], as text. *)
Definition rmc_text : str := map Byte.to_N (rmc_sentence "6A").

(** * Properties *)

(** ** Bytes and integers *)

Lemma byte_int_range (b : byte) : 0 <= byte_int b < 256.
Proof.
  unfold byte_int. pose proof (Byte.to_N_bounded b). lia.
Qed.

Lemma byte_of_int_byte_int (b : byte) : byte_of_int (byte_int b) = Ok b.
Proof.
  unfold byte_of_int, byte_int.
  destruct (Z.ltb_spec (Z.of_N (Byte.to_N b)) 0) as [H|_]; [lia|].
  now rewrite N2Z.id, Byte.of_to_N.
Qed.

Lemma byte_int_inj (a b : byte) : byte_int a = byte_int b -> a = b.
Proof.
  intros H.
  pose proof (byte_of_int_byte_int a) as Ha.
  rewrite H, byte_of_int_byte_int in Ha. congruence.
Qed.

Lemma byte_of_int_small (n : Z) :
  0 <= n < 256 -> exists b, byte_of_int n = Ok b /\ byte_int b = n.
Proof.
  intros Hn. unfold byte_of_int.
  destruct (Z.ltb_spec n 0) as [H|_]; [lia|].
  destruct (Byte.of_N (Z.to_N n)) as [b|] eqn:E.
  - exists b. split; [reflexivity|].
    apply Byte.to_of_N in E. unfold byte_int. rewrite E. lia.
  - apply Byte.of_N_None_iff in E. lia.
Qed.

Lemma byte_of_int_large (n : Z) :
  255 < n -> byte_of_int n = Raise (ValueError bytes_out_of_range).
Proof.
  intros Hn. unfold byte_of_int.
  destruct (Z.ltb_spec n 0) as [H|_]; [lia|].
  destruct (Byte.of_N (Z.to_N n)) as [b|] eqn:E; [|reflexivity].
  apply Byte.to_of_N in E. pose proof (Byte.to_N_bounded b). lia.
Qed.

Lemma bytes_of_ints_list_ints (b : bytes) : bytes_of_ints (list_ints b) = Ok b.
Proof.
  induction b as [|x t IH]; [reflexivity|].
  cbn [list_ints map bytes_of_ints]. rewrite byte_of_int_byte_int. cbn [bind].
  fold (list_ints t). now rewrite IH.
Qed.

Lemma bytes_of_ints_one (b : byte) : bytes_of_ints [byte_int b] = Ok [b].
Proof.
  exact (bytes_of_ints_list_ints [b]).
Qed.

Lemma list_ints_inj (a b : bytes) : list_ints a = list_ints b -> a = b.
Proof.
  revert b. induction a as [|x a IH]; intros [|y b] H; try discriminate; auto.
  cbn in H. injection H as Hx Ht. f_equal; [now apply byte_int_inj | now apply IH].
Qed.

Lemma bytes_eqb_eq (a b : bytes) : bytes_eqb a b = true <-> a = b.
Proof.
  unfold bytes_eqb. destruct (list_eq_dec Byte.byte_eq_dec a b); split; congruence.
Qed.

Lemma bytes_eqb_neq (a b : bytes) : bytes_eqb a b = false <-> a <> b.
Proof.
  unfold bytes_eqb. destruct (list_eq_dec Byte.byte_eq_dec a b); split; congruence.
Qed.

Lemma ints_eqb_eq (a b : list Z) : ints_eqb a b = true <-> a = b.
Proof.
  unfold ints_eqb. destruct (list_eq_dec Z.eq_dec a b); split; congruence.
Qed.

Lemma ints_eqb_neq (a b : list Z) : ints_eqb a b = false <-> a <> b.
Proof.
  unfold ints_eqb. destruct (list_eq_dec Z.eq_dec a b); split; congruence.
Qed.

(** ** Checksum-UBX *)

Lemma fold_indices (g : Z * Z -> nat -> Z * Z) (s pre : bytes) (acc : Z * Z) :
  (forall a i, g a i = sums_step a (nth i (pre ++ s) x00)) ->
  fold_left g (seq (List.length pre) (List.length s)) acc = fold_left sums_step s acc.
Proof.
  revert pre acc. induction s as [|x t IH]; intros pre acc Hg; [reflexivity|].
  cbn [List.length seq fold_left]. rewrite Hg.
  rewrite app_nth2, Nat.sub_diag by lia. cbn [nth].
  specialize (IH (pre ++ [x]) (sums_step acc x)).
  rewrite length_app in IH. cbn [List.length] in IH.
  rewrite Nat.add_1_r in IH. apply IH.
  intros a i. rewrite <- app_assoc. apply Hg.
Qed.

Lemma fold_range_from_2 (msg : bytes) (g : Z * Z -> nat -> Z * Z) :
  (forall a i, g a i = sums_step a (nth i msg x00)) ->
  fold_left g (range 2 (List.length msg)) (0, 0)
  = fold_left sums_step (skipn 2 msg) (0, 0).
Proof.
  intros Hg. unfold range.
  destruct msg as [|y0 [|y1 s]]; try reflexivity.
  cbn [List.length skipn].
  replace (S (S (List.length s)) - 2)%nat with (List.length s) by lia.
  apply (fold_indices g s [y0; y1]). exact Hg.
Qed.

Lemma sums_mod_256 (s : bytes) (A B a b : Z) :
  a = A mod 256 -> b = B mod 256 ->
  fletcher8_from a b s
  = (fst (fold_left sums_step s (A, B)) mod 256,
     snd (fold_left sums_step s (A, B)) mod 256).
Proof.
  revert A B a b. induction s as [|x t IH]; intros A B a b Ha Hb.
  - cbn. now subst.
  - cbn [fletcher8_from fold_left sums_step].
    apply IH.
    + subst a. now rewrite Z.add_mod_idemp_l by lia.
    + subst a b. rewrite (Z.add_mod_idemp_l A) by lia.
      rewrite Z.add_mod_idemp_l by lia.
      now rewrite Z.add_mod_idemp_r by lia.
Qed.

Lemma fletcher8_from_range (s : bytes) (A B : Z) :
  0 <= A < 256 -> 0 <= B < 256 ->
  0 <= fst (fletcher8_from A B s) < 256 /\ 0 <= snd (fletcher8_from A B s) < 256.
Proof.
  revert A B. induction s as [|x t IH]; intros A B HA HB; [cbn; lia|].
  cbn [fletcher8_from]. apply IH; apply Z.mod_pos_bound; lia.
Qed.

Lemma land_255 (x : Z) : Z.land x 0xFF = x mod 256.
Proof.
  change 0xFF with (Z.ones 8). now rewrite Z.land_ones by lia.
Qed.

(** What the checksum function returns, as bytes. *)
Lemma fletcher_checksum_value (msg : bytes) :
  exists a b,
    fletcher_checksum msg = Ok [a; b]
    /\ (byte_int a, byte_int b) = fletcher8 (skipn 2 msg).
Proof.
  unfold fletcher_checksum.
  rewrite (fold_range_from_2 msg) by (intros [A B] i; reflexivity).
  unfold fletcher8.
  rewrite (sums_mod_256 (skipn 2 msg) 0 0 0 0) by reflexivity.
  destruct (fold_left sums_step (skipn 2 msg) (0, 0)) as [SA SB].
  cbn [fst snd]. rewrite !land_255.
  destruct (byte_of_int_small (SA mod 256)) as (a & Ea & Ha);
    [apply Z.mod_pos_bound; lia|].
  destruct (byte_of_int_small (SB mod 256)) as (b & Eb & Hb);
    [apply Z.mod_pos_bound; lia|].
  exists a, b. cbn [bytes_of_ints bind]. rewrite Ea, Eb. cbn.
  split; [reflexivity | congruence].
Qed.

Lemma fletcher_checksum_ext (m1 m2 : bytes) :
  skipn 2 m1 = skipn 2 m2 -> fletcher_checksum m1 = fletcher_checksum m2.
Proof.
  intros H.
  destruct (fletcher_checksum_value m1) as (a1 & b1 & E1 & V1).
  destruct (fletcher_checksum_value m2) as (a2 & b2 & E2 & V2).
  rewrite H, <- V2 in V1. injection V1 as Ha Hb.
  apply byte_int_inj in Ha, Hb. congruence.
Qed.

Lemma fletcher_checksum_sync (body : bytes) :
  fletcher_checksum (sync ++ body) = Ok (expected_checksum body).
Proof.
  unfold expected_checksum.
  destruct (fletcher_checksum_value (sync ++ body)) as (a & b & E & _).
  now rewrite E.
Qed.

Lemma expected_checksum_ints (body : bytes) :
  list_ints (expected_checksum body)
  = [fst (fletcher8 body); snd (fletcher8 body)].
Proof.
  unfold expected_checksum.
  destruct (fletcher_checksum_value (sync ++ body)) as (a & b & E & V).
  rewrite E. cbn [sync app skipn] in V. rewrite <- V. reflexivity.
Qed.

Lemma expected_checksum_length (body : bytes) :
  List.length (expected_checksum body) = 2%nat.
Proof.
  unfold expected_checksum.
  destruct (fletcher_checksum_value (sync ++ body)) as (a & b & E & _).
  now rewrite E.
Qed.

(** ** Sequences *)

Lemma drop_last_app {A : Type} (l s : list A) (k : nat) :
  List.length s = k -> drop_last k (l ++ s) = l.
Proof.
  intros H. unfold drop_last. rewrite length_app, H.
  replace (List.length l + k - k)%nat with (List.length l) by lia.
  rewrite firstn_app, Nat.sub_diag, firstn_all. cbn. apply app_nil_r.
Qed.

Lemma take_last_app {A : Type} (l s : list A) (k : nat) :
  List.length s = k -> take_last k (l ++ s) = s.
Proof.
  intros H. unfold take_last. rewrite length_app, H.
  replace (List.length l + k - k)%nat with (List.length l) by lia.
  rewrite skipn_app, Nat.sub_diag, skipn_all. reflexivity.
Qed.

Lemma take_last_length {A : Type} (l : list A) (k : nat) :
  List.length (take_last k l) = Nat.min k (List.length l).
Proof.
  unfold take_last. rewrite length_skipn. lia.
Qed.

Lemma drop_last_sync (d : bytes) :
  skipn 2 (drop_last 2 (sync ++ d)) = drop_last 2 d.
Proof.
  unfold drop_last. rewrite length_app. cbn [sync List.length].
  replace (2 + List.length d - 2)%nat with (List.length d) by lia.
  destruct d as [|x0 [|x1 t]]; try reflexivity.
  cbn [List.length app].
  replace (S (S (List.length t)) - 2)%nat with (List.length t) by lia.
  cbn [firstn skipn]. reflexivity.
Qed.

(** ** The registry *)

Lemma safeget_two_levels (kvs : list (key * pyobj)) (k1 k2 : key) :
  Forall (fun kv => exists d, snd kv = PDict d) kvs ->
  exists o, safeget (PDict kvs) [k1; k2] = Ok o.
Proof.
  intros Hall. cbn [safeget getitem].
  destruct (find (fun kv => key_eqb (fst kv) k1) kvs) as [kv|] eqn:E.
  - apply find_some in E as [Hin _].
    rewrite Forall_forall in Hall. destruct (Hall kv Hin) as (d & Hd).
    rewrite Hd. cbn [getitem].
    destruct (find (fun kv0 => key_eqb (fst kv0) k2) d); eauto.
  - eauto.
Qed.

Lemma registry_total (k1 : bytes) (k2 : key) :
  exists o, safeget ubx_msg_dict [KBytes k1; k2] = Ok o.
Proof.
  apply safeget_two_levels.
  repeat (constructor; [eexists; reflexivity|]). constructor.
Qed.

(** ** The UBX decoder in closed form *)

Lemma UBX_message_init_eq (data : bytes) :
  UBX_message_init (Bytes data)
  = let d := frame_body data in
    let computed := list_ints (expected_checksum (drop_last 2 d)) in
    let declared := list_ints (take_last 2 d) in
    if ints_eqb computed declared then
      if (len (slice_to_last 4 2 d) =? int_from_bytes_little (slice 2 4 d))
      then Ok (decoded d)
      else Raise (ValueError (payload_length_incorrect
                                (len (slice_to_last 4 2 d))
                                (int_from_bytes_little (slice 2 4 d))))
    else Raise (ValueError (wrong_checksum computed declared)).
Proof.
  unfold UBX_message_init. cbv zeta. cbn [bind].
  change (if bytes_eqb (firstn 2 data) sync then skipn 2 data else data)
    with (frame_body data).
  generalize (frame_body data). intros d.
  rewrite (fletcher_checksum_ext _ (sync ++ drop_last 2 d))
    by (rewrite drop_last_sync; reflexivity).
  rewrite fletcher_checksum_sync. cbn [bind].
  destruct (ints_eqb _ _) eqn:Eck; cbn [negb]; [|reflexivity].
  apply ints_eqb_eq in Eck.
  assert (Hlen : (2 <= List.length d)%nat).
  { apply (f_equal (@List.length Z)) in Eck.
    unfold list_ints in Eck. rewrite !length_map in Eck.
    rewrite expected_checksum_length, take_last_length in Eck. lia. }
  unfold decoded, registry_name.
  destruct d as [|x0 [|x1 t]]; cbn [List.length] in Hlen; try lia.
  cbn [list_ints map index nth_error bind nth].
  rewrite !bytes_of_ints_one. cbn [bind].
  destruct (registry_total [x0] (KStr "classname")) as (o1 & E1).
  destruct (registry_total [x0] (KBytes [x1])) as (o2 & E2).
  rewrite E1, E2. cbn [bind].
  destruct (len _ =? _); cbn [negb]; reflexivity.
Qed.

Lemma UBX_message_init_ok (data : bytes) (m : UBX_message) :
  UBX_message_init (Bytes data) = Ok m ->
  checksum_verifies (frame_body data) = true /\ m = decoded (frame_body data).
Proof.
  rewrite UBX_message_init_eq. cbv zeta. fold (checksum_verifies (frame_body data)).
  destruct (checksum_verifies (frame_body data)); [|discriminate].
  destruct (len _ =? _); [|discriminate].
  intros H. injection H as <-. auto.
Qed.

Lemma UBX_message_init_wrong_checksum (data : bytes) :
  checksum_verifies (frame_body data) = false ->
  UBX_message_init (Bytes data)
  = Raise (ValueError
             (wrong_checksum
                (list_ints (expected_checksum (drop_last 2 (frame_body data))))
                (list_ints (take_last 2 (frame_body data))))).
Proof.
  intros H. rewrite UBX_message_init_eq. cbv zeta.
  fold (checksum_verifies (frame_body data)). now rewrite H.
Qed.

(** The decoder raises nothing but its two [ValueError]s. *)
Lemma UBX_message_init_raises (data : bytes) (e : exn) :
  UBX_message_init (Bytes data) = Raise e ->
  (exists c d, e = ValueError (wrong_checksum c d))
  \/ (exists a l, e = ValueError (payload_length_incorrect a l)).
Proof.
  rewrite UBX_message_init_eq. cbv zeta.
  destruct (ints_eqb _ _).
  - destruct (len _ =? _); [discriminate|].
    intros H. injection H as <-. right. eauto.
  - intros H. injection H as <-. left. eauto.
Qed.

Lemma frame_body_sync (f : bytes) : frame_body (sync ++ f) = f.
Proof.
  unfold frame_body. cbn [sync app firstn skipn].
  now rewrite (proj2 (bytes_eqb_eq _ _) eq_refl).
Qed.

Lemma frame_body_no_sync (f : bytes) : firstn 2 f <> sync -> frame_body f = f.
Proof.
  intros H. unfold frame_body.
  now rewrite (proj2 (bytes_eqb_neq _ _) H).
Qed.

Lemma checksum_verifies_short (d : bytes) :
  (List.length d < 2)%nat -> checksum_verifies d = false.
Proof.
  intros H. unfold checksum_verifies. apply ints_eqb_neq. intros E.
  apply (f_equal (@List.length Z)) in E. unfold list_ints in E.
  rewrite !length_map, expected_checksum_length, take_last_length in E. lia.
Qed.

Lemma checksum_verifies_app (q ck : bytes) :
  List.length ck = 2%nat ->
  checksum_verifies (q ++ ck) = true <-> ck = expected_checksum q.
Proof.
  intros H. unfold checksum_verifies.
  rewrite drop_last_app, take_last_app by assumption.
  rewrite ints_eqb_eq. split.
  - intros E. now apply list_ints_inj in E.
  - now intros ->.
Qed.

Lemma checksum_verifies_changed (q : bytes) (a b a' b' : byte) :
  [a'; b'] <> [a; b] ->
  checksum_verifies (q ++ [a; b]) = true ->
  checksum_verifies (q ++ [a'; b']) = false.
Proof.
  intros Hne H. apply checksum_verifies_app in H; [|reflexivity].
  destruct (checksum_verifies (q ++ [a'; b'])) eqn:E; [|reflexivity].
  apply checksum_verifies_app in E; [|reflexivity]. congruence.
Qed.

(** Changing the trailing two bytes of a frame that decodes makes the
    checksum test of the changed frame fail. *)
Lemma changed_checksum_fails (pre : bytes) (a b a' b' : byte) :
  [a'; b'] <> [a; b] ->
  checksum_verifies (frame_body (pre ++ [a; b])) = true ->
  checksum_verifies (frame_body (pre ++ [a'; b'])) = false.
Proof.
  intros Hne H.
  destruct pre as [|p0 [|p1 pre]].
  - (* the frame is its two checksum bytes *)
    cbn [app] in *.
    unfold frame_body in H. cbn [firstn skipn] in H.
    destruct (bytes_eqb [a; b] sync);
      [rewrite checksum_verifies_short in H by (cbn; lia); discriminate H|].
    unfold frame_body. cbn [firstn skipn].
    destruct (bytes_eqb [a'; b'] sync);
      [apply checksum_verifies_short; cbn; lia|].
    exact (checksum_verifies_changed [] a b a' b' Hne H).
  - cbn [app] in *.
    unfold frame_body in H. cbn [firstn skipn] in H.
    destruct (bytes_eqb [p0; a] sync);
      [rewrite checksum_verifies_short in H by (cbn; lia); discriminate H|].
    unfold frame_body. cbn [firstn skipn].
    destruct (bytes_eqb [p0; a'] sync);
      [apply checksum_verifies_short; cbn; lia|].
    exact (checksum_verifies_changed [p0] a b a' b' Hne H).
  - cbn [app] in *. unfold frame_body in *. cbn [firstn skipn] in *.
    destruct (bytes_eqb [p0; p1] sync).
    + exact (checksum_verifies_changed pre a b a' b' Hne H).
    + exact (checksum_verifies_changed (p0 :: p1 :: pre) a b a' b' Hne H).
Qed.

Lemma ubx_changed_checksum (pre : bytes) (a b a' b' : byte) (m : UBX_message) :
  [a'; b'] <> [a; b] ->
  UBX_message_init (Bytes (pre ++ [a; b])) = Ok m ->
  exists c d,
    UBX_message_init (Bytes (pre ++ [a'; b'])) = Raise (ValueError (wrong_checksum c d))
    /\ c <> d.
Proof.
  intros Hne H. apply UBX_message_init_ok in H as [H _].
  pose proof (changed_checksum_fails pre a b a' b' Hne H) as F.
  rewrite (UBX_message_init_wrong_checksum _ F).
  do 2 eexists. split; [reflexivity|].
  unfold checksum_verifies in F. now apply ints_eqb_neq in F.
Qed.

(** ** The builder *)

Lemma ubx_msg_short (c id payload : bytes) :
  (List.length payload <= 255)%nat ->
  exists lb,
    byte_int lb = len payload
    /\ ubx_msg c id payload
       = Ok (sync ++ (c ++ id ++ [lb; x00] ++ payload)
               ++ expected_checksum (c ++ id ++ [lb; x00] ++ payload)).
Proof.
  intros H. unfold ubx_msg.
  destruct (byte_of_int_small (len payload)) as (lb & E & V);
    [unfold len; lia|].
  exists lb. split; [exact V|].
  cbn [bytes_of_ints bind]. rewrite E. cbn [bind].
  change (len [lb] <? 2) with true. cbv iota. cbn [app].
  change (xb5 :: x62 :: c ++ id ++ lb :: x00 :: payload)
    with (sync ++ (c ++ id ++ lb :: x00 :: payload)).
  rewrite fletcher_checksum_sync. cbn [bind]. now rewrite <- app_assoc.
Qed.

Lemma ubx_msg_long (c id payload : bytes) :
  (255 < List.length payload)%nat ->
  ubx_msg c id payload = Raise (ValueError bytes_out_of_range).
Proof.
  intros H. unfold ubx_msg. cbn [bytes_of_ints bind].
  rewrite byte_of_int_large by (unfold len; lia). reflexivity.
Qed.

(** ** Text builtins *)

Lemma split_length (sep : N) (s : str) :
  List.length (split sep s) = S (count_occ N.eq_dec s sep).
Proof.
  induction s as [|c t IH]; [reflexivity|].
  cbn [split count_occ].
  destruct (N.eqb_spec c sep) as [->|Hne].
  - destruct (N.eq_dec sep sep); [|congruence]. cbn. now rewrite IH.
  - destruct (N.eq_dec c sep); [congruence|].
    destruct (split sep t); cbn in *; lia.
Qed.

Lemma split_no_sep (sep : N) (s : str) : ~ In sep s -> split sep s = [s].
Proof.
  induction s as [|c t IH]; intros H; [reflexivity|].
  cbn [split]. destruct (N.eqb_spec c sep) as [->|Hne].
  - exfalso. apply H. now left.
  - rewrite IH; [reflexivity|]. intros Hin. apply H. now right.
Qed.

Lemma split_app_sep (sep : N) (a b : str) :
  ~ In sep a -> split sep (a ++ sep :: b) = a :: split sep b.
Proof.
  induction a as [|c t IH]; intros H.
  - cbn [app split]. now rewrite N.eqb_refl.
  - cbn [app split]. destruct (N.eqb_spec c sep) as [->|Hne].
    + exfalso. apply H. now left.
    + rewrite IH; [reflexivity|]. intros Hin. apply H. now right.
Qed.

Lemma count_occ_zero_not_in (s : str) (c : N) :
  count_occ N.eq_dec s c = 0%nat -> ~ In c s.
Proof.
  intros H. now apply (count_occ_not_In N.eq_dec).
Qed.

(** A sentence with one ['*'] and four characters after it splits into the
    body and those four. *)
Lemma sentence_stars (body : str) (h1 h2 t1 t2 : N) :
  count_occ N.eq_dec (body ++ [star; h1; h2; t1; t2]) star = 1%nat ->
  ~ In star body /\ ~ In star [h1; h2; t1; t2].
Proof.
  rewrite count_occ_app. cbn [count_occ].
  destruct (N.eq_dec star star); [|congruence].
  intros H. split.
  - apply count_occ_zero_not_in. lia.
  - apply count_occ_zero_not_in. cbn [count_occ]. lia.
Qed.

Lemma split_sentence (body tail : str) :
  ~ In star body -> ~ In star tail ->
  split star (body ++ star :: tail) = [body; tail].
Proof.
  intros Hb Ht. now rewrite split_app_sep, split_no_sep.
Qed.

Lemma xor_fold (body : str) (acc : Z) :
  fold_left (fun checksum s => Z.lxor checksum (ord s)) body acc
  = Z.lxor acc (xor_codes body).
Proof.
  revert acc. induction body as [|c t IH]; intros acc; cbn [fold_left xor_codes].
  - now rewrite Z.lxor_0_r.
  - rewrite IH. unfold ord. now rewrite Z.lxor_assoc.
Qed.

Lemma hex_inj (a b : Z) : hex a = hex b -> a = b.
Proof.
  unfold hex. intros H. apply (f_equal HexString.to_Z) in H.
  now rewrite !HexString.to_Z_of_Z in H.
Qed.

Lemma hex_eqb (a b : Z) : String.eqb (hex a) (hex b) = (a =? b).
Proof.
  destruct (Z.eqb_spec a b) as [->|Hne].
  - apply String.eqb_refl.
  - apply String.eqb_neq. intros H. now apply hex_inj in H.
Qed.

Lemma is_hex_digit_codes (c : N) :
  is_hex_digit c = true <-> In c hex_digit_codes.
Proof.
  unfold is_hex_digit. rewrite existsb_exists. split.
  - intros (x & Hin & E). apply N.eqb_eq in E. now subst.
  - intros H. exists c. split; [exact H | apply N.eqb_refl].
Qed.

(** [int(s, 16)] on two hexadecimal digits. *)
Lemma int16_two_digits (h1 h2 : N) :
  is_hex_digit h1 = true -> is_hex_digit h2 = true ->
  int16 [h1; h2] = Ok (16 * hex_value h1 + hex_value h2).
Proof.
  intros H1 H2. apply is_hex_digit_codes in H1, H2.
  assert (All :
    forallb (fun a =>
      forallb (fun b =>
        match int16 [a; b] with
        | Ok v => v =? 16 * hex_value a + hex_value b
        | Raise _ => false
        end) hex_digit_codes) hex_digit_codes = true) by (vm_compute; reflexivity).
  rewrite forallb_forall in All. specialize (All h1 H1).
  rewrite forallb_forall in All. specialize (All h2 H2).
  destruct (int16 [h1; h2]); [|discriminate].
  apply Z.eqb_eq in All. now subst.
Qed.

Lemma int16_raises (s : str) (e : exn) :
  int16 s = Raise e -> e = ValueError (invalid_literal s).
Proof.
  unfold int16.
  repeat match goal with
         | |- context [match ?x with _ => _ end] => destruct x
         end; congruence.
Qed.

(** ** UTF-8 decoding, one character at a time *)

Lemma decode_step (b : bytes) :
  b = []
  \/ decode b = Raise UnicodeDecodeError
  \/ exists pre rest c,
       b = pre ++ rest /\ char_encoding pre c
       /\ decode b = (s <- decode rest ;; Ok (c :: s)).
Proof.
  destruct b as [|b0 t0]; [now left|right].
  cbn [decode]. unfold byte_in.
  destruct (N.ltb_spec (Byte.to_N b0) 128) as [H0|H0].
  { right. exists [b0], t0, (Byte.to_N b0).
    repeat split; [now constructor]. }
  destruct ((194 <=? Byte.to_N b0) && (Byte.to_N b0 <=? 223))%N eqn:R2.
  { cbv iota. destruct t0 as [|b1 t1]; [now left|].
    match goal with
    | |- context [if ?c then bind _ _ else _] => destruct c eqn:C
    end; [right|now left].
    rewrite ?andb_true_iff, ?N.leb_le in R2.
    rewrite ?andb_true_iff, ?N.leb_le in C.
    exists [b0; b1], t1. eexists. repeat split.
    apply enc_multi; [lia | repeat constructor; lia | discriminate]. }
  destruct ((224 <=? Byte.to_N b0) && (Byte.to_N b0 <=? 239))%N eqn:R3.
  { cbv iota. destruct t0 as [|b1 [|b2 t2]]; try (now left).
    match goal with
    | |- context [if ?c then bind _ _ else _] => destruct c eqn:C
    end; [right|now left].
    rewrite ?andb_true_iff, ?N.leb_le in R3.
    rewrite ?andb_true_iff, ?N.leb_le in C.
    exists [b0; b1; b2], t2. eexists. repeat split.
    destruct (N.eqb_spec (Byte.to_N b0) 224);
      (apply enc_multi; [lia | repeat constructor; lia | discriminate]). }
  destruct ((240 <=? Byte.to_N b0) && (Byte.to_N b0 <=? 244))%N eqn:R4;
    [|now left].
  cbv iota. destruct t0 as [|b1 [|b2 [|b3 t3]]]; try (now left).
  match goal with
  | |- context [if ?c then bind _ _ else _] => destruct c eqn:C
  end; [right|now left].
  rewrite ?andb_true_iff, ?N.leb_le in R4.
  rewrite ?andb_true_iff, ?N.leb_le in C.
  exists [b0; b1; b2; b3], t3. eexists. repeat split.
  destruct (N.eqb_spec (Byte.to_N b0) 240);
    (apply enc_multi; [lia | repeat constructor; lia | discriminate]).
Qed.

Lemma char_encoding_nonempty (pre : bytes) (c : N) :
  char_encoding pre c -> pre <> [].
Proof.
  intros [b _|pre' c' _ _ H]; [discriminate | exact H].
Qed.

(** Induction along the characters that [decode] reads. *)
Lemma decode_chars_ind (P : bytes -> result str -> Prop) :
  P [] (Ok []) ->
  (forall b, P b (Raise UnicodeDecodeError)) ->
  (forall pre rest c,
      char_encoding pre c -> P rest (decode rest) ->
      P (pre ++ rest) (s <- decode rest ;; Ok (c :: s))) ->
  forall b, P b (decode b).
Proof.
  intros Hnil Herr Hstep b.
  remember (List.length b) as n eqn:Hn.
  revert b Hn. induction n as [n IH] using lt_wf_ind. intros b Hn.
  destruct (decode_step b) as [->|[E|(pre & rest & c & -> & Hc & E)]].
  - exact Hnil.
  - rewrite E. apply Herr.
  - rewrite E. apply Hstep; [exact Hc|].
    apply (IH (List.length rest)); [|reflexivity].
    apply char_encoding_nonempty in Hc.
    rewrite Hn, length_app. destruct pre; [congruence|cbn; lia].
Qed.

Lemma decode_raises (b : bytes) (e : exn) :
  decode b = Raise e -> e = UnicodeDecodeError.
Proof.
  revert e.
  apply (decode_chars_ind
           (fun _ r => forall e, r = Raise e -> e = UnicodeDecodeError)).
  - discriminate.
  - congruence.
  - intros pre rest c _ IH e. destruct (decode rest) as [s|e'].
    + discriminate.
    + cbn [bind]. intros H. injection H as <-. now apply IH.
Qed.

Lemma star_in_encoding (pre : bytes) (c : N) :
  char_encoding pre c ->
  count_occ Byte.byte_eq_dec pre "*"%byte = count_occ N.eq_dec [c] star.
Proof.
  intros [b Hb|pre' c' Hc Hall Hne].
  - cbn [count_occ].
    destruct (Byte.byte_eq_dec b "*"%byte) as [Hy|Hn];
      destruct (N.eq_dec (Byte.to_N b) star) as [E|E]; try reflexivity.
    + exfalso. apply E. now rewrite Hy.
    + exfalso. apply Hn. apply byte_int_inj. unfold byte_int. now rewrite E.
  - cbn [count_occ]. destruct (N.eq_dec c' star) as [E|_].
    + unfold star in E. lia.
    + apply (count_occ_not_In Byte.byte_eq_dec). intros Hin.
      rewrite Forall_forall in Hall. apply Hall in Hin. cbn in Hin. lia.
Qed.

(** Decoding keeps the number of ['*']: the byte 0x2A only ever encodes
    that character. *)
Lemma decode_star_count (b : bytes) (s : str) :
  decode b = Ok s ->
  count_occ N.eq_dec s star = count_occ Byte.byte_eq_dec b "*"%byte.
Proof.
  revert s.
  apply (decode_chars_ind
           (fun b r => forall s, r = Ok s ->
              count_occ N.eq_dec s star = count_occ Byte.byte_eq_dec b "*"%byte)).
  - intros s H. injection H as <-. reflexivity.
  - discriminate.
  - intros pre rest c Hc IH s. destruct (decode rest) as [s'|e'].
    + cbn [bind]. intros H. injection H as <-.
      rewrite count_occ_app, (star_in_encoding pre c Hc).
      change (c :: s') with ([c] ++ s'). rewrite count_occ_app.
      now rewrite (IH s' eq_refl).
    + discriminate.
Qed.

Lemma as_str_star_count (data : nmea_input) (text : str) :
  as_str data = Ok text -> count_occ N.eq_dec text star = star_count data.
Proof.
  destruct data as [s|b]; cbn [as_str star_count].
  - intros H. now injection H as <-.
  - apply decode_star_count.
Qed.

(** ** The NMEA decoder in closed form *)

Lemma NMEA_message_init_eq (data : nmea_input) :
  NMEA_message_init data
  = (text <- as_str data ;;
     ' (body, chk) <- unpack2 (split star text) ;;
     parsed <- int16 (drop_last 2 chk) ;;
     if xor_codes body =? parsed
     then Ok (nmea_decoded text (drop_last 2 chk))
     else Raise (ValueError (nmea_checksum_mismatch (hex (xor_codes body))
                                                    (hex parsed)))).
Proof.
  unfold NMEA_message_init.
  destruct (as_str data) as [text|e]; [|reflexivity]. cbn [bind].
  destruct (unpack2 (split star text)) as [[body chk]|e]; [|reflexivity].
  cbn [bind]. destruct (int16 (drop_last 2 chk)) as [parsed|e]; [|reflexivity].
  cbn [bind]. rewrite xor_fold, Z.lxor_0_l, hex_eqb.
  destruct (xor_codes body =? parsed); reflexivity.
Qed.

(** Whatever the NMEA decoder raises is caught by [except ValueError]. *)
Lemma NMEA_message_init_raises (data : nmea_input) (e : exn) :
  NMEA_message_init data = Raise e -> isinstance_ValueError e = true.
Proof.
  rewrite NMEA_message_init_eq.
  destruct (as_str data) as [text|e0] eqn:Etext.
  - cbn [bind]. unfold unpack2.
    destruct (split star text) as [|body [|chk [|x l]]]; cbn [bind];
      try (intros H; injection H as <-; reflexivity).
    destruct (int16 (drop_last 2 chk)) as [parsed|e1] eqn:Eint; cbn [bind].
    + destruct (xor_codes body =? parsed); [discriminate|].
      intros H. injection H as <-. reflexivity.
    + intros H. injection H as <-.
      now rewrite (int16_raises _ _ Eint).
  - cbn [bind]. intros H. injection H as <-.
    destruct data as [s|b]; cbn [as_str] in Etext; [discriminate|].
    now rewrite (decode_raises _ _ Etext).
Qed.

(** The decoder on a sentence [body*HHtt] whose checksum field [HH] is two
    hexadecimal digits. *)
Lemma NMEA_sentence (data : nmea_input) (body : str) (h1 h2 t1 t2 : N) :
  as_str data = Ok (body ++ [star; h1; h2; t1; t2]) ->
  ~ In star body -> ~ In star [h1; h2; t1; t2] ->
  is_hex_digit h1 = true -> is_hex_digit h2 = true ->
  NMEA_message_init data
  = if xor_codes body =? 16 * hex_value h1 + hex_value h2
    then Ok (nmea_decoded (body ++ [star; h1; h2; t1; t2]) [h1; h2])
    else Raise (ValueError
                  (nmea_checksum_mismatch
                     (hex (xor_codes body))
                     (hex (16 * hex_value h1 + hex_value h2)))).
Proof.
  intros Etext Hb Ht H1 H2.
  rewrite NMEA_message_init_eq, Etext. cbn [bind].
  rewrite split_sentence by assumption. cbn [unpack2 bind].
  change (drop_last 2 [h1; h2; t1; t2]) with [h1; h2].
  rewrite int16_two_digits by assumption. reflexivity.
Qed.

(** ** The stream parser, one turn at a time *)

Lemma index_nth {A : Type} (l : list A) (i : nat) (d : A) :
  (i < List.length l)%nat -> index l i = Ok (nth i l d).
Proof.
  intros H. unfold index.
  now rewrite (nth_error_nth' l d H).
Qed.

Lemma parse_cons (self : UBX_receiver) (b : byte) (rest : bytes) :
  in_waiting (port self) = b :: rest ->
  parse self
  = let self1 :=
      with_port self {| in_waiting := rest; written := written (port self) |} in
    match loop_body self1 [b] with
    | (self2, Next) => parse_loop rest self2
    | (self2, Return v) => (self2, Ok v)
    | (self2, Propagate e) => (self2, Raise e)
    end.
Proof.
  intros H. unfold parse. rewrite H. reflexivity.
Qed.

(** A turn that completes a UBX frame. *)
Lemma ubx_turn_complete (self : UBX_receiver) (byte : bytes) :
  current_parse self = Some UBX ->
  4 <= len (parse_data self ++ [byte]) ->
  len (parse_data self ++ [byte]) = declared_length (parse_data self ++ [byte]) + 6 ->
  ubx_turn self byte
  = (reset_data (with_parse self (Some UBX) (parse_data self ++ [byte])),
     Return (Some (frame_result UBX (parse_data self ++ [byte])))).
Proof.
  intros Hmode H4 Hlen. unfold ubx_turn, current_parse_is.
  rewrite Hmode. cbn [mode_eqb with_parse parse_data].
  destruct (Z.leb_spec 4 (len (parse_data self ++ [byte]))) as [_|C]; [|lia].
  assert (Hn : (4 <= List.length (parse_data self ++ [byte]))%nat)
    by (unfold len in H4; lia).
  rewrite (index_nth (parse_data self ++ [byte]) 2 [] ltac:(lia)).
  rewrite (index_nth (parse_data self ++ [byte]) 3 [] ltac:(lia)).
  fold (declared_length (parse_data self ++ [byte])).
  rewrite <- Hlen, Z.eqb_refl. unfold frame_result.
  destruct (UBX_message_init (Bytes (List.concat (parse_data self ++ [byte]))))
    as [m|e] eqn:E; [reflexivity|].
  destruct (UBX_message_init_raises _ _ E) as [(c & d & ->)|(a & l & ->)];
    reflexivity.
Qed.

(** A turn that completes an NMEA line. *)
Lemma nmea_turn_complete (self : UBX_receiver) :
  current_parse self = Some NMEA ->
  nmea_turn self [LF]
  = (reset_data (with_parse self (Some NMEA) (parse_data self ++ [[LF]])),
     Return (Some (frame_result NMEA (parse_data self ++ [[LF]])))).
Proof.
  intros Hmode. unfold nmea_turn, current_parse_is.
  rewrite Hmode. cbn [mode_eqb with_parse parse_data].
  rewrite (proj2 (bytes_eqb_eq [LF] [x0a]) eq_refl). unfold frame_result.
  match goal with
  | |- context [match ?x with Ok _ => _ | Raise _ => _ end] =>
      destruct x as [m|e] eqn:E
  end; [reflexivity|].
  now rewrite (NMEA_message_init_raises _ _ E).
Qed.

Lemma ubx_turn_other_mode (self : UBX_receiver) (byte : bytes) :
  current_parse self = Some NMEA -> ubx_turn self byte = (self, Next).
Proof.
  intros H. unfold ubx_turn, current_parse_is. now rewrite H.
Qed.

Lemma last_byte_is_spec (self : UBX_receiver) (l : bytes) :
  last_byte_is self l = true <-> last_byte self = Some l.
Proof.
  unfold last_byte_is. destruct (last_byte self) as [x|].
  - rewrite bytes_eqb_eq. split; congruence.
  - split; discriminate.
Qed.

(** The idle turn: when it starts an NMEA line. *)
Lemma idle_turn_nmea_start (self : UBX_receiver) (b : byte) :
  current_parse self = None ->
  current_parse (fst (idle_turn self [b])) = Some NMEA
  <-> b = "G"%byte /\ last_byte self = Some ["$"%byte].
Proof.
  intros Hidle. unfold idle_turn. cbn [fst with_last_byte current_parse].
  destruct (bytes_eqb [b] [x62] && last_byte_is self [xb5]) eqn:C1.
  - apply andb_true_iff in C1 as [E _]. apply bytes_eqb_eq in E.
    injection E as ->. cbn [with_parse current_parse].
    split; [discriminate | intros [H _]; discriminate H].
  - destruct (bytes_eqb [b] ["G"%byte] && last_byte_is self ["$"%byte]) eqn:C2.
    + apply andb_true_iff in C2 as [E L]. apply bytes_eqb_eq in E.
      injection E as ->. apply last_byte_is_spec in L.
      cbn [with_parse current_parse]. split; auto.
    + rewrite Hidle. split; [discriminate|]. intros [-> L].
      apply last_byte_is_spec in L. rewrite L in C2.
      rewrite (proj2 (bytes_eqb_eq _ _) eq_refl) in C2. discriminate C2.
Qed.

Lemma idle_turn_nmea_seed (self : UBX_receiver) (b : byte) :
  current_parse self = None ->
  current_parse (fst (idle_turn self [b])) = Some NMEA ->
  parse_data (fst (idle_turn self [b])) = [["G"%byte]].
Proof.
  intros Hidle. unfold idle_turn. cbn [fst with_last_byte current_parse parse_data].
  destruct (bytes_eqb [b] [x62] && last_byte_is self [xb5]);
    [cbn; discriminate|].
  destruct (bytes_eqb [b] ["G"%byte] && last_byte_is self ["$"%byte]).
  - reflexivity.
  - rewrite Hidle. discriminate.
Qed.

Lemma odd_length_mod_2 {A : Type} (l : list A) :
  Nat.odd (List.length l) = true -> len l mod 2 = 1.
Proof.
  intros H. apply Nat.odd_spec in H as [k Hk]. unfold len. rewrite Hk.
  replace (Z.of_nat (2 * k + 1)) with (1 + Z.of_nat k * 2) by lia.
  now rewrite Z.mod_add by lia.
Qed.

Lemma hex_digit_not_star (h : N) : is_hex_digit h = true -> h <> star.
Proof.
  intros H ->. discriminate H.
Qed.

Lemma swap_case_hex (h : N) :
  is_hex_digit h = true ->
  is_hex_digit (swap_case h) = true /\ hex_value (swap_case h) = hex_value h.
Proof.
  intros H. apply is_hex_digit_codes in H.
  assert (All :
    forallb (fun c => is_hex_digit (swap_case c)
                      && (hex_value (swap_case c) =? hex_value c))
            hex_digit_codes = true) by (vm_compute; reflexivity).
  rewrite forallb_forall in All. specialize (All h H).
  apply andb_true_iff in All as [A B]. apply Z.eqb_eq in B. auto.
Qed.

Lemma not_in_four (c h1 h2 t1 t2 h1' h2' : N) :
  ~ In c [h1; h2; t1; t2] -> h1' <> c -> h2' <> c -> ~ In c [h1'; h2'; t1; t2].
Proof.
  cbn [In]. intuition congruence.
Qed.

(** A sentence that decodes has exactly one ['*']. *)
Lemma NMEA_ok_one_star (data : nmea_input) (text : str) (m : NMEA_message) :
  as_str data = Ok text -> NMEA_message_init data = Ok m ->
  count_occ N.eq_dec text star = 1%nat.
Proof.
  intros Etext. rewrite NMEA_message_init_eq, Etext. cbn [bind].
  pose proof (split_length star text) as L. unfold unpack2.
  destruct (split star text) as [|x [|y [|z l]]]; cbn [bind]; try discriminate.
  cbn in L. intros _. lia.
Qed.

(** A text with one ['*'] has none before it and none after it. *)
Lemma one_star (body chk : str) :
  count_occ N.eq_dec (body ++ star :: chk) star = 1%nat ->
  ~ In star body /\ ~ In star chk.
Proof.
  rewrite count_occ_app. cbn [count_occ].
  destruct (N.eq_dec star star); [|congruence].
  intros H. split; apply count_occ_zero_not_in; lia.
Qed.

(** The decoder on a text [body*chk] with one ['*']: the field it reads is
    [chk] without its last two characters. *)
Lemma NMEA_one_star (data : nmea_input) (body chk : str) :
  as_str data = Ok (body ++ star :: chk) ->
  ~ In star body -> ~ In star chk ->
  NMEA_message_init data
  = (parsed <- int16 (drop_last 2 chk) ;;
     if xor_codes body =? parsed
     then Ok (nmea_decoded (body ++ star :: chk) (drop_last 2 chk))
     else Raise (ValueError (nmea_checksum_mismatch (hex (xor_codes body))
                                                    (hex parsed)))).
Proof.
  intros Et Hb Hc. rewrite NMEA_message_init_eq, Et. cbn [bind].
  rewrite split_sentence by assumption. reflexivity.
Qed.

(** The decoder on a text with two ['*']: the unpacking fails. *)
Lemma NMEA_two_stars (data : nmea_input) (a b c : str) :
  as_str data = Ok (a ++ star :: b ++ star :: c) ->
  ~ In star a -> ~ In star b -> ~ In star c ->
  NMEA_message_init data = Raise (ValueError (unpack_mismatch 3)).
Proof.
  intros Et Ha Hb Hc. rewrite NMEA_message_init_eq, Et. cbn [bind].
  rewrite split_app_sep by assumption.
  rewrite split_sentence by assumption. reflexivity.
Qed.

(** Success of the decoder on a text [body*chk] with one ['*']. *)
Lemma NMEA_one_star_ok (data : nmea_input) (body chk : str) :
  as_str data = Ok (body ++ star :: chk) ->
  ~ In star body -> ~ In star chk ->
  is_ok (NMEA_message_init data) = true
  <-> int16 (drop_last 2 chk) = Ok (xor_codes body).
Proof.
  intros Et Hb Hc. rewrite (NMEA_one_star data body chk Et Hb Hc).
  destruct (int16 (drop_last 2 chk)) as [parsed|e]; cbn [bind].
  - destruct (Z.eqb_spec (xor_codes body) parsed) as [E|Hne]; cbn [is_ok].
    + split; [intros _; now rewrite E | reflexivity].
    + split; [discriminate|]. intros H. injection H as H. congruence.
  - cbn [is_ok]. split; discriminate.
Qed.

Lemma not_in_changed (x c c' : N) (pre post tail : str) :
  ~ In x ((pre ++ c :: post) ++ tail) -> c' <> x ->
  ~ In x ((pre ++ c' :: post) ++ tail).
Proof.
  intros H Hc Hin. apply H.
  apply in_app_or in Hin as [Hin|Hin]; apply in_or_app; [left|now right].
  apply in_app_or in Hin as [Hin|[Hin|Hin]]; apply in_or_app.
  - now left.
  - congruence.
  - right. now right.
Qed.

Lemma not_in_parts (x c : N) (pre post tail : str) :
  ~ In x ((pre ++ c :: post) ++ tail) ->
  ~ In x pre /\ ~ In x (post ++ tail).
Proof.
  intros H. split; intros Hin; apply H.
  - apply in_or_app. left. apply in_or_app. now left.
  - apply in_app_or in Hin as [Hin|Hin]; apply in_or_app; [left|now right].
    apply in_or_app. right. now right.
Qed.

(** * The claims *)

(** C1 (the builder at a 256-byte payload).  The round trip asked for at
    every payload length up to 65535 stops at 255: for a payload of 256
    bytes [ubx_msg] raises the [ValueError] of [bytes([256])] and builds no
    frame, so there is nothing to decode. *)
Theorem C1_ubx_msg_raises_at_256 :
  ubx_msg [x06] [x8a] (repeat x00 256) = Raise (ValueError bytes_out_of_range).
Proof.
  apply ubx_msg_long. rewrite repeat_length. lia.
Qed.

(** C2 (amended).  For every byte sequence [msg] given to
    [fletcher_checksum], the function returns the two bytes [(A, B)] of the
    Fletcher recurrence applied, in order, to the bytes of [msg] after its
    first two: the argument is the frame with its sync marker in front, and
    the sum starts at the class byte. *)
Theorem C2_fletcher_checksum_from_class_byte (msg : bytes) :
  exists a b,
    fletcher_checksum msg = Ok [a; b]
    /\ (byte_int a, byte_int b) = fletcher8 (skipn 2 msg).
Proof.
  exact (fletcher_checksum_value msg).
Qed.

(** C2, as stated, fails: on the three bytes 1, 2, 3 the function returns
    (3, 3), the recurrence over all of them gives (6, 10). *)
Lemma C2_first_two_bytes_skipped :
  fletcher_checksum [x01; x02; x03] = Ok [x03; x03]
  /\ fletcher8 [x01; x02; x03] = (6, 10).
Proof.
  split; reflexivity.
Qed.

(** C3 (amended).  For every byte buffer [f] that does not itself start
    with the bytes 0xB5 0x62, constructing a UBX message from [f] and from
    the sync marker followed by [f] give the same result: the same message,
    or the same failure. *)
Theorem C3_sync_marker_optional (f : bytes) :
  firstn 2 f <> sync ->
  UBX_message_init (Bytes (sync ++ f)) = UBX_message_init (Bytes f).
Proof.
  intros H.
  now rewrite !UBX_message_init_eq, frame_body_sync, (frame_body_no_sync f H).
Qed.

Lemma C3_sync_marker_optional_witness :
  firstn 2 reset_frame <> sync
  /\ UBX_message_init (Bytes (sync ++ reset_frame))
     = UBX_message_init (Bytes reset_frame).
Proof.
  split.
  - discriminate.
  - apply (C3_sync_marker_optional reset_frame). discriminate.
Defined.

(** C3, as stated, fails on a complete frame whose class and id bytes are
    0xB5 0x62 (length 0, checksum 0x17 0xFA): behind a sync marker it
    decodes, on its own its first two bytes are taken for the marker and the
    checksum test fails. *)
Lemma C3_frame_starting_like_sync :
  UBX_message_init (Bytes (sync ++ [xb5; x62; x00; x00; x17; xfa]))
  = Ok (decoded [xb5; x62; x00; x00; x17; xfa])
  /\ UBX_message_init (Bytes [xb5; x62; x00; x00; x17; xfa])
     = Raise (ValueError (wrong_checksum [0; 0] [23; 250])).
Proof.
  split; vm_compute; reflexivity.
Qed.

(** C4 (amended).  Changing exactly one of the two trailing checksum bytes
    of a UBX frame whose checksum verifies makes the decoder fail with its
    checksum error.  For an NMEA sentence that decodes, the checksum field
    is what the constructor reads: the characters between the ['*'] and the
    last two characters of the sentence.  Changing exactly one character of
    that field makes the decoder fail with a [ValueError] (that of the
    unpacking when the new character is a ['*'], that of [int] when the new
    field is no hexadecimal literal, the checksum error when it is one of
    another value), unless the new field denotes the same number as the old
    one, and then the sentence still decodes.  In particular, when the field
    is two hexadecimal digits, replacing one of them by a hexadecimal digit
    of another value gives the checksum error.  Whatever is changed in a
    sentence, an exception of the constructor is a [ValueError]: for a
    [bytes] input that no longer decodes, the [UnicodeDecodeError]. *)
Theorem C4_corrupted_checksum_rejected :
  (forall (pre : bytes) (a b a' b' : byte),
      checksum_verifies (frame_body (pre ++ [a; b])) = true ->
      (a' <> a /\ b' = b) \/ (a' = a /\ b' <> b) ->
      exists c d,
        UBX_message_init (Bytes (pre ++ [a'; b']))
        = Raise (ValueError (wrong_checksum c d)))
  /\
  (forall (data data' : nmea_input) (body pre post : str) (c c' t1 t2 : N)
          (m : NMEA_message),
      as_str data = Ok (body ++ star :: (pre ++ c :: post) ++ [t1; t2]) ->
      as_str data' = Ok (body ++ star :: (pre ++ c' :: post) ++ [t1; t2]) ->
      NMEA_message_init data = Ok m ->
      int16 (pre ++ c :: post) = Ok (xor_codes body)
      /\ ((c' = star
           /\ NMEA_message_init data' = Raise (ValueError (unpack_mismatch 3)))
          \/ (c' <> star
              /\ int16 (pre ++ c' :: post)
                 = Raise (ValueError (invalid_literal (pre ++ c' :: post)))
              /\ NMEA_message_init data'
                 = Raise (ValueError (invalid_literal (pre ++ c' :: post))))
          \/ (exists v',
                 int16 (pre ++ c' :: post) = Ok v'
                 /\ v' <> xor_codes body
                 /\ NMEA_message_init data'
                    = Raise (ValueError
                               (nmea_checksum_mismatch (hex (xor_codes body))
                                                       (hex v'))))
          \/ (int16 (pre ++ c' :: post) = Ok (xor_codes body)
              /\ is_ok (NMEA_message_init data') = true)))
  /\
  (forall (data data' : nmea_input) (body : str) (h1 h2 h1' h2' t1 t2 : N)
          (m : NMEA_message),
      as_str data = Ok (body ++ [star; h1; h2; t1; t2]) ->
      as_str data' = Ok (body ++ [star; h1'; h2'; t1; t2]) ->
      is_hex_digit h1 = true -> is_hex_digit h2 = true ->
      is_hex_digit h1' = true -> is_hex_digit h2' = true ->
      NMEA_message_init data = Ok m ->
      (hex_value h1' <> hex_value h1 /\ h2' = h2)
      \/ (h1' = h1 /\ hex_value h2' <> hex_value h2) ->
      NMEA_message_init data'
      = Raise (ValueError
                 (nmea_checksum_mismatch
                    (hex (16 * hex_value h1 + hex_value h2))
                    (hex (16 * hex_value h1' + hex_value h2')))))
  /\
  (forall (data' : nmea_input) (e : exn),
      NMEA_message_init data' = Raise e -> isinstance_ValueError e = true).
Proof.
  split; [|split; [|split]]; [| | |exact NMEA_message_init_raises].
  - intros pre a b a' b' Hok Hchange.
    assert (Hne : [a'; b'] <> [a; b]).
    { intros H. injection H as Ha Hb. destruct Hchange as [[N _]|[_ N]]; auto. }
    pose proof (changed_checksum_fails pre a b a' b' Hne Hok) as F.
    rewrite (UBX_message_init_wrong_checksum _ F). eauto.
  - intros data data' body pre post c c' t1 t2 m Et Et' Hok.
    pose proof (NMEA_ok_one_star _ _ _ Et Hok) as Hone.
    apply one_star in Hone as [Hb Ht].
    assert (Hfield : forall x : N,
               drop_last 2 ((pre ++ x :: post) ++ [t1; t2]) = pre ++ x :: post).
    { intros x. unfold drop_last. rewrite length_app. cbn [List.length].
      replace (List.length (pre ++ x :: post) + 2 - 2)%nat
        with (List.length (pre ++ x :: post) + 0)%nat by lia.
      rewrite firstn_app_2. cbn [firstn]. apply app_nil_r. }
    assert (Hold : int16 (pre ++ c :: post) = Ok (xor_codes body)).
    { rewrite <- (Hfield c). apply (NMEA_one_star_ok data); auto.
      now rewrite Hok. }
    split; [exact Hold|].
    destruct (N.eq_dec c' star) as [Hs|Hs].
    + left. split; [exact Hs|]. subst c'.
      destruct (not_in_parts star c pre post [t1; t2] Ht) as [Hpre Hpost].
      apply (NMEA_two_stars data' body pre (post ++ [t1; t2])); auto.
      rewrite Et'. now rewrite <- app_assoc.
    + right.
      pose proof (not_in_changed star c c' pre post [t1; t2] Ht Hs) as Ht'.
      rewrite (NMEA_one_star data' body _ Et' Hb Ht'), Hfield.
      destruct (int16 (pre ++ c' :: post)) as [v'|e] eqn:Ei; cbn [bind].
      * destruct (Z.eqb_spec (xor_codes body) v') as [<-|Hne].
        -- right. right. split; reflexivity.
        -- right. left. exists v'. repeat split; congruence.
      * left. rewrite (int16_raises _ _ Ei). auto.
  - intros data data' body h1 h2 h1' h2' t1 t2 m Et Et' H1 H2 H1' H2' Hok Hchange.
    pose proof (NMEA_ok_one_star _ _ _ Et Hok) as Hone.
    apply sentence_stars in Hone as [Hb Ht].
    assert (Ht' : ~ In star [h1'; h2'; t1; t2])
      by (apply (not_in_four star h1 h2); auto using hex_digit_not_star).
    rewrite (NMEA_sentence data body h1 h2 t1 t2) in Hok by assumption.
    rewrite (NMEA_sentence data' body h1' h2' t1 t2) by assumption.
    destruct (Z.eqb_spec (xor_codes body) (16 * hex_value h1 + hex_value h2))
      as [Ex|_]; [|discriminate Hok].
    rewrite Ex.
    destruct (Z.eqb_spec (16 * hex_value h1 + hex_value h2)
                         (16 * hex_value h1' + hex_value h2'))
      as [Ex'|_]; [|reflexivity].
    exfalso. destruct Hchange as [[N ->]|[-> N]]; lia.
Qed.

Lemma C4_corrupted_checksum_rejected_witness :
  (exists c d,
      UBX_message_init (Bytes ([x06; x04; x04; x00; x00; x00; x00; x00] ++ [x0f; x64]))
      = Raise (ValueError (wrong_checksum c d)))
  /\ (int16 ([] ++ 54%N :: [65%N]) = Ok (xor_codes (ascii_str rmc_body))
      /\ ((71%N = star
           /\ NMEA_message_init (Encoded (rmc_sentence "GA"))
              = Raise (ValueError (unpack_mismatch 3)))
          \/ (71%N <> star
              /\ int16 ([] ++ 71%N :: [65%N])
                 = Raise (ValueError (invalid_literal ([] ++ 71%N :: [65%N])))
              /\ NMEA_message_init (Encoded (rmc_sentence "GA"))
                 = Raise (ValueError (invalid_literal ([] ++ 71%N :: [65%N]))))
          \/ (exists v',
                 int16 ([] ++ 71%N :: [65%N]) = Ok v'
                 /\ v' <> xor_codes (ascii_str rmc_body)
                 /\ NMEA_message_init (Encoded (rmc_sentence "GA"))
                    = Raise (ValueError
                               (nmea_checksum_mismatch
                                  (hex (xor_codes (ascii_str rmc_body)))
                                  (hex v'))))
          \/ (int16 ([] ++ 71%N :: [65%N]) = Ok (xor_codes (ascii_str rmc_body))
              /\ is_ok (NMEA_message_init (Encoded (rmc_sentence "GA"))) = true)))
  /\ NMEA_message_init (Encoded (rmc_sentence "7A"))
     = Raise (ValueError
                (nmea_checksum_mismatch
                   (hex (16 * hex_value 54 + hex_value 65))
                   (hex (16 * hex_value 55 + hex_value 65))))
  /\ isinstance_ValueError UnicodeDecodeError = true.
Proof.
  split; [|split; [|split]].
  - refine (proj1 C4_corrupted_checksum_rejected
              [x06; x04; x04; x00; x00; x00; x00; x00] x0e x64 x0f x64 _ _).
    + vm_compute. reflexivity.
    + left. split; [discriminate | reflexivity].
  - refine (proj1 (proj2 C4_corrupted_checksum_rejected)
              (Encoded (rmc_sentence "6A")) (Encoded (rmc_sentence "GA"))
              (ascii_str rmc_body) [] [65%N] 54%N 71%N 13%N 10%N
              (nmea_decoded rmc_text (ascii_str "6A")) _ _ _).
    + vm_compute. reflexivity.
    + vm_compute. reflexivity.
    + vm_compute. reflexivity.
  - refine (proj1 (proj2 (proj2 C4_corrupted_checksum_rejected))
              (Encoded (rmc_sentence "6A")) (Encoded (rmc_sentence "7A"))
              (ascii_str rmc_body) 54%N 65%N 55%N 65%N 13%N 10%N
              (nmea_decoded rmc_text (ascii_str "6A")) _ _ _ _ _ _ _ _).
    + vm_compute. reflexivity.
    + vm_compute. reflexivity.
    + reflexivity.
    + reflexivity.
    + reflexivity.
    + reflexivity.
    + vm_compute. reflexivity.
    + left. split; [discriminate | reflexivity].
  - refine (proj2 (proj2 (proj2 C4_corrupted_checksum_rejected))
              (Encoded (ascii_bytes "GA*6" ++ [xff; x0d; x0a]))
              UnicodeDecodeError _).
    vm_compute. reflexivity.
Defined.

(** C4, as stated, fails for NMEA: the sentence with checksum field [6A]
    decodes, and so does the sentence whose one checksum byte [A] was
    changed to [a]. *)
Lemma C4_letter_case_change_accepted :
  is_ok (NMEA_message_init (Encoded (rmc_sentence "6A"))) = true
  /\ is_ok (NMEA_message_init (Encoded (rmc_sentence "6a"))) = true
  /\ rmc_sentence "6A" <> rmc_sentence "6a".
Proof.
  repeat split; try (vm_compute; reflexivity). discriminate.
Qed.

(** C5 (amended).  For a sentence with exactly one ['*'], the NMEA
    constructor succeeds exactly when the checksum field as it reads it, the
    characters after the ['*'] without the last two characters of the
    sentence, parses with [int(field, 16)] to the XOR of the character codes
    before the ['*'].  When the ['*'] is followed by two hexadecimal digits
    and exactly two closing characters, that is: the XOR equals the number
    the two digits denote; the test is on numbers, so writing a digit in the
    other letter case changes nothing. *)
Theorem C5_nmea_checksum_numeric (data : nmea_input) (body chk : str) :
  as_str data = Ok (body ++ star :: chk) ->
  count_occ N.eq_dec (body ++ star :: chk) star = 1%nat ->
  (is_ok (NMEA_message_init data) = true
   <-> int16 (drop_last 2 chk) = Ok (xor_codes body))
  /\ (forall h1 h2 t1 t2 : N,
         chk = [h1; h2; t1; t2] ->
         is_hex_digit h1 = true -> is_hex_digit h2 = true ->
         (is_ok (NMEA_message_init data) = true
          <-> xor_codes body = 16 * hex_value h1 + hex_value h2)
         /\ (forall (data' : nmea_input) (c1 c2 : N),
                c1 = h1 \/ c1 = swap_case h1 ->
                c2 = h2 \/ c2 = swap_case h2 ->
                as_str data' = Ok (body ++ [star; c1; c2; t1; t2]) ->
                is_ok (NMEA_message_init data')
                = is_ok (NMEA_message_init data))).
Proof.
  intros Et Hone. apply one_star in Hone as [Hb Ht].
  split; [now apply NMEA_one_star_ok|].
  intros h1 h2 t1 t2 -> H1 H2.
  rewrite (NMEA_sentence data body h1 h2 t1 t2) by assumption.
  split.
  - destruct (Z.eqb_spec (xor_codes body) (16 * hex_value h1 + hex_value h2));
      cbn [is_ok]; split; congruence.
  - intros data' c1 c2 Hc1 Hc2 Et'.
    destruct (swap_case_hex h1 H1) as [S1 V1].
    destruct (swap_case_hex h2 H2) as [S2 V2].
    assert (Hx1 : is_hex_digit c1 = true /\ hex_value c1 = hex_value h1)
      by (destruct Hc1 as [->| ->]; auto).
    assert (Hx2 : is_hex_digit c2 = true /\ hex_value c2 = hex_value h2)
      by (destruct Hc2 as [->| ->]; auto).
    destruct Hx1 as [D1 E1]. destruct Hx2 as [D2 E2].
    rewrite (NMEA_sentence data' body c1 c2 t1 t2); auto.
    + rewrite E1, E2.
      destruct (xor_codes body =? 16 * hex_value h1 + hex_value h2); reflexivity.
    + apply (not_in_four star h1 h2); auto using hex_digit_not_star.
Qed.

Lemma C5_nmea_checksum_numeric_witness :
  (is_ok (NMEA_message_init (Encoded (rmc_sentence "6A"))) = true
   <-> int16 (drop_last 2 [54; 65; 13; 10]%N)
       = Ok (xor_codes (ascii_str rmc_body)))
  /\ (forall h1 h2 t1 t2 : N,
         [54; 65; 13; 10]%N = [h1; h2; t1; t2] ->
         is_hex_digit h1 = true -> is_hex_digit h2 = true ->
         (is_ok (NMEA_message_init (Encoded (rmc_sentence "6A"))) = true
          <-> xor_codes (ascii_str rmc_body) = 16 * hex_value h1 + hex_value h2)
         /\ (forall (data' : nmea_input) (c1 c2 : N),
                c1 = h1 \/ c1 = swap_case h1 ->
                c2 = h2 \/ c2 = swap_case h2 ->
                as_str data' = Ok (ascii_str rmc_body ++ [star; c1; c2; t1; t2]) ->
                is_ok (NMEA_message_init data')
                = is_ok (NMEA_message_init (Encoded (rmc_sentence "6A"))))).
Proof.
  apply (C5_nmea_checksum_numeric
           (Encoded (rmc_sentence "6A")) (ascii_str rmc_body) [54; 65; 13; 10]%N).
  - vm_compute. reflexivity.
  - vm_compute. reflexivity.
Defined.

(** C5, as stated, fails on a line that ends on a line feed alone, which
    the parser hands to the constructor like any other: in [GA*6A] followed
    by LF the constructor drops [A] and LF and reads the field [6]; the XOR
    of [G] and [A] is 6, so the sentence is accepted, although the two
    hexadecimal digits after the ['*'] denote 106. *)
Lemma C5_line_feed_only_line_accepted :
  NMEA_message_init (Encoded (ascii_bytes "GA*6A" ++ [LF]))
  = Ok (nmea_decoded (ascii_str "GA*6A" ++ [10%N]) (ascii_str "6"))
  /\ count_occ N.eq_dec (ascii_str "GA*6A" ++ [10%N]) star = 1%nat
  /\ xor_codes (ascii_str "GA") = 6
  /\ 16 * hex_value 54 + hex_value 65 = 106
  /\ snd (feed_each (new_receiver idle_port) (ascii_bytes "$GA*6A" ++ [LF]))
     = repeat (Ok None) 6
       ++ [Ok (Some (nmea_message
                       (nmea_decoded (ascii_str "GA*6A" ++ [10%N])
                                     (ascii_str "6"))))].
Proof.
  repeat split; vm_compute; reflexivity.
Qed.

(** C6.  From any idle state, the twelve bytes 0xB5 0x62, 0x06, 0x04,
    0x04 0x00, four zero bytes and the checksum 0x0E 0x64, fed one byte per
    call of [parse], make the first eleven calls return [None] and the
    twelfth return one UBX message, of class 0x06, id 0x04 and length 4;
    the parser is idle again afterwards. *)
Theorem C6_reset_frame_byte_by_byte
  (p : Port) (buffer : list bytes) (last : option bytes) :
  feed_each {| port := p; current_parse := None;
               parse_data := buffer; last_byte := last |}
            [xb5; x62; x06; x04; x04; x00; x00; x00; x00; x00; x0e; x64]
  = ({| port := {| in_waiting := []; written := written p |};
        current_parse := None; parse_data := []; last_byte := Some [x62] |},
     repeat (Ok None) 11
     ++ [Ok (Some (ubx_message
                     {| correct := true;
                        raw_data := sync ++ reset_frame;
                        ubx_class := 6;
                        ubx_class_name := PStr "CFG";
                        ubx_id := 4;
                        ubx_id_name := PStr "unknown";
                        length_field := 4;
                        payload := [x00; x00; x00; x00] |}))]).
Proof.
  vm_compute. reflexivity.
Qed.

(** C7 (amended).  For every byte [b] consumed while the parser is idle,
    the parser starts collecting an NMEA line, with the frame buffer seeded
    with ['G'], exactly when [b] is ['G'] and [last_byte], the byte most
    recently consumed while idle, is ['$'].  No other first character
    starts a line.  Bytes consumed while a frame is collected do not update
    [last_byte]. *)
Theorem C7_nmea_start_after_dollar
  (self : UBX_receiver) (b : byte) (rest : bytes) :
  current_parse self = None ->
  in_waiting (port self) = b :: rest ->
  exists self',
    parse self = (self', Ok None)
    /\ last_byte self' = Some [b]
    /\ (current_parse self' = Some NMEA
        <-> b = "G"%byte /\ last_byte self = Some ["$"%byte])
    /\ (current_parse self' = Some NMEA -> parse_data self' = [["G"%byte]]).
Proof.
  intros Hidle Hin. rewrite (parse_cons self b rest Hin). cbv zeta.
  set (self1 := with_port self _).
  assert (Hidle1 : current_parse self1 = None) by exact Hidle.
  unfold loop_body. rewrite Hidle1.
  pose proof (idle_turn_nmea_start self1 b Hidle1) as Hstart.
  pose proof (idle_turn_nmea_seed self1 b Hidle1) as Hseed.
  change (last_byte self1) with (last_byte self) in Hstart.
  destruct (idle_turn self1 [b]) as [self2 t] eqn:E.
  assert (Ht : t = Return None /\ last_byte self2 = Some [b]).
  { unfold idle_turn in E. injection E as <- <-. split; reflexivity. }
  destruct Ht as [-> Hl]. cbn [fst] in Hstart, Hseed.
  exists self2. auto.
Qed.

Lemma C7_nmea_start_after_dollar_witness :
  exists self',
    parse {| port := {| in_waiting := ["G"%byte]; written := [] |};
             current_parse := None; parse_data := [];
             last_byte := Some ["$"%byte] |}
    = (self', Ok None)
    /\ last_byte self' = Some ["G"%byte]
    /\ (current_parse self' = Some NMEA
        <-> "G"%byte = "G"%byte /\ Some ["$"%byte] = Some ["$"%byte])
    /\ (current_parse self' = Some NMEA -> parse_data self' = [["G"%byte]]).
Proof.
  apply (C7_nmea_start_after_dollar
           {| port := {| in_waiting := ["G"%byte]; written := [] |};
              current_parse := None; parse_data := [];
              last_byte := Some ["$"%byte] |} "G"%byte []);
    reflexivity.
Defined.

(** C7, as stated, fails: the frame 0xB5 0x62 06 04 00 00 0A 24 is a
    well-formed UBX frame whose second checksum byte is ['$'] (0x24).  Once
    it is consumed the parser is idle and the byte consumed last was ['$'],
    but [last_byte] still holds 0x62, and a ['G'] consumed next starts no
    NMEA line. *)
Lemma C7_dollar_inside_frame :
  snd (feed_each (new_receiver idle_port)
         [xb5; x62; x06; x04; x00; x00; x0a; "$"%byte])
  = repeat (Ok None) 7
    ++ [Ok (Some (ubx_message (decoded [x06; x04; x00; x00; x0a; "$"%byte])))]
  /\ current_parse
       (fst (feed_each (new_receiver idle_port)
               [xb5; x62; x06; x04; x00; x00; x0a; "$"%byte])) = None
  /\ last_byte
       (fst (feed_each (new_receiver idle_port)
               [xb5; x62; x06; x04; x00; x00; x0a; "$"%byte])) = Some [x62]
  /\ current_parse
       (fst (feed_each (new_receiver idle_port)
               [xb5; x62; x06; x04; x00; x00; x0a; "$"%byte; "G"%byte])) = None.
Proof.
  repeat split; vm_compute; reflexivity.
Qed.

(** C8.  With an odd number of arguments [set_val] raises the
    argument-count [ValueError] and leaves the receiver, and with it the
    bytes written to the port, as they were. *)
Theorem C8_set_val_odd_arguments (self : UBX_receiver) (args : list arg) :
  Nat.odd (List.length args) = true ->
  set_val self args = (self, Raise (ValueError odd_argument_count))
  /\ written (port (fst (set_val self args))) = written (port self).
Proof.
  intros H. unfold set_val. rewrite (odd_length_mod_2 args H). cbn. auto.
Qed.

Lemma C8_set_val_odd_arguments_witness :
  set_val (new_receiver idle_port) [AStr "GLL_UART1"]
  = (new_receiver idle_port, Raise (ValueError odd_argument_count))
  /\ written (port (fst (set_val (new_receiver idle_port) [AStr "GLL_UART1"])))
     = written (port (new_receiver idle_port)).
Proof.
  apply (C8_set_val_odd_arguments (new_receiver idle_port) [AStr "GLL_UART1"]).
  reflexivity.
Defined.



(** C10.  The NMEA constructor succeeds only on input with exactly one
    ['*']: with none, or with two or more, it raises a [ValueError]
    (the unpacking of the split, or the decoding error that precedes it). *)
Theorem C10_nmea_needs_one_star (data : nmea_input) :
  star_count data <> 1%nat ->
  exists e,
    NMEA_message_init data = Raise e
    /\ isinstance_ValueError e = true
    /\ (e = UnicodeDecodeError
        \/ e = ValueError (unpack_mismatch (S (star_count data)))).
Proof.
  intros Hne. rewrite NMEA_message_init_eq.
  destruct (as_str data) as [text|e] eqn:Et.
  - cbn [bind]. pose proof (as_str_star_count data text Et) as Hc.
    pose proof (split_length star text) as L. rewrite Hc in L.
    unfold unpack2.
    destruct (split star text) as [|x [|y [|z l]]]; cbn [bind];
      try (rewrite <- L; eexists; repeat split; now right).
    cbn in L. lia.
  - cbn [bind]. destruct data as [s|b]; cbn [as_str] in Et; [discriminate|].
    apply decode_raises in Et. subst e. eexists. repeat split. now left.
Qed.

Lemma C10_nmea_needs_one_star_witness :
  exists e,
    NMEA_message_init (Encoded (ascii_bytes "GPGGA,1*2*47" ++ [CR; LF])) = Raise e
    /\ isinstance_ValueError e = true
    /\ (e = UnicodeDecodeError
        \/ e = ValueError
                 (unpack_mismatch
                    (S (star_count (Encoded (ascii_bytes "GPGGA,1*2*47" ++ [CR; LF])))))).
Proof.
  apply (C10_nmea_needs_one_star (Encoded (ascii_bytes "GPGGA,1*2*47" ++ [CR; LF]))).
  vm_compute. discriminate.
Defined.

(** * Further properties of the builder and the parser *)

(** The round trip through the builder and the decoder, for payloads of at
    most 255 bytes: the frame [ubx_msg] builds decodes to the class, the id
    and the payload it was built from. *)
Theorem ubx_round_trip_upto_255 (c i : byte) (p : bytes) :
  (List.length p <= 255)%nat ->
  exists frame m,
    ubx_msg [c] [i] p = Ok frame
    /\ UBX_message_init (Bytes frame) = Ok m
    /\ ubx_class m = byte_int c
    /\ ubx_id m = byte_int i
    /\ length_field m = len p
    /\ payload m = p.
Proof.
  intros H. destruct (ubx_msg_short [c] [i] p H) as (lb & V & E).
  cbn [app] in E.
  set (body := c :: i :: lb :: x00 :: p) in *.
  exists (sync ++ body ++ expected_checksum body), (decoded (body ++ expected_checksum body)).
  split; [exact E|].
  assert (Hpay : slice_to_last 4 2 (body ++ expected_checksum body) = p).
  { unfold slice_to_last.
    now rewrite drop_last_app by apply expected_checksum_length. }
  assert (Hlen : int_from_bytes_little (slice 2 4 (body ++ expected_checksum body))
                 = len p).
  { unfold body. cbn. rewrite V. lia. }
  repeat split; try assumption.
  rewrite UBX_message_init_eq, frame_body_sync. cbv zeta.
  fold (checksum_verifies (body ++ expected_checksum body)).
  rewrite (proj2 (checksum_verifies_app body (expected_checksum body)
                    (expected_checksum_length body)) eq_refl).
  now rewrite Hpay, Hlen, Z.eqb_refl.
Qed.

Lemma ubx_round_trip_upto_255_witness :
  exists frame m,
    ubx_msg [x06] [x04] [x00; x00; x00; x00] = Ok frame
    /\ UBX_message_init (Bytes frame) = Ok m
    /\ ubx_class m = byte_int x06
    /\ ubx_id m = byte_int x04
    /\ length_field m = len [x00; x00; x00; x00]
    /\ payload m = [x00; x00; x00; x00].
Proof.
  apply (ubx_round_trip_upto_255 x06 x04 [x00; x00; x00; x00]).
  cbn. lia.
Defined.

(** Beyond 255 bytes the builder raises, whatever the class and id. *)
Theorem ubx_msg_raises_beyond_255 (c id p : bytes) :
  (255 < List.length p)%nat ->
  ubx_msg c id p = Raise (ValueError bytes_out_of_range).
Proof.
  intros H. unfold ubx_msg. cbn [bytes_of_ints bind].
  rewrite byte_of_int_large by (unfold len; lia). reflexivity.
Qed.

Lemma ubx_msg_raises_beyond_255_witness :
  ubx_msg [x06] [x8a] (repeat x01 300) = Raise (ValueError bytes_out_of_range).
Proof.
  apply (ubx_msg_raises_beyond_255 [x06] [x8a] (repeat x01 300)).
  rewrite repeat_length. lia.
Defined.

(** ** The UBX decoder on whole frames *)

Lemma fletcher8_from_fst (s : bytes) (A B : Z) :
  0 <= A < 256 -> fst (fletcher8_from A B s) = (A + byte_sum s) mod 256.
Proof.
  revert A B. induction s as [|x t IH]; intros A B HA.
  - cbn. rewrite Z.add_0_r. now rewrite Z.mod_small.
  - cbn [fletcher8_from byte_sum fold_right]. fold (byte_sum t).
    rewrite IH by (apply Z.mod_pos_bound; lia).
    rewrite Z.add_mod_idemp_l by lia. f_equal. lia.
Qed.

(** The first checksum byte is the sum of the bytes modulo 256. *)
Lemma fletcher8_fst (s : bytes) : fst (fletcher8 s) = byte_sum s mod 256.
Proof.
  unfold fletcher8. now rewrite fletcher8_from_fst by lia.
Qed.

Lemma byte_sum_app (a b : bytes) : byte_sum (a ++ b) = byte_sum a + byte_sum b.
Proof.
  induction a as [|x t IH]; cbn [app byte_sum fold_right]; [reflexivity|].
  fold (byte_sum (t ++ b)) (byte_sum t). lia.
Qed.

Lemma expected_checksum_changed (pre post : bytes) (x x' : byte) :
  x <> x' ->
  expected_checksum (pre ++ x :: post) <> expected_checksum (pre ++ x' :: post).
Proof.
  intros Hne E. apply (f_equal list_ints) in E.
  rewrite !expected_checksum_ints in E. injection E as EA _.
  rewrite !fletcher8_fst, !byte_sum_app in EA.
  cbn [byte_sum fold_right] in EA. fold (byte_sum post) in EA.
  apply Hne, byte_int_inj.
  pose proof (byte_int_range x). pose proof (byte_int_range x').
  assert (D : (byte_int x - byte_int x') mod 256 = 0).
  { replace (byte_int x - byte_int x')
      with ((byte_sum pre + (byte_int x + byte_sum post))
            - (byte_sum pre + (byte_int x' + byte_sum post))) by lia.
    rewrite Zminus_mod, EA, Z.sub_diag. reflexivity. }
  apply Z.mod_divide in D; [|lia]. destruct D as [k Hk]. lia.
Qed.

Lemma pair_checksum (body : bytes) (a b : byte) :
  (byte_int a, byte_int b) = fletcher8 body <-> [a; b] = expected_checksum body.
Proof.
  split.
  - intros E. apply list_ints_inj. rewrite expected_checksum_ints, <- E. reflexivity.
  - intros E. apply (f_equal list_ints) in E.
    rewrite expected_checksum_ints in E.
    destruct (fletcher8 body) as [A B]. cbn in E. congruence.
Qed.

Lemma frame_slices (c i l0 l1 : byte) (p ck : bytes) :
  List.length ck = 2%nat ->
  slice_to_last 4 2 (c :: i :: l0 :: l1 :: p ++ ck) = p
  /\ int_from_bytes_little (slice 2 4 (c :: i :: l0 :: l1 :: p ++ ck))
     = byte_int l0 + 256 * byte_int l1.
Proof.
  intros H. split.
  - unfold slice_to_last.
    change (c :: i :: l0 :: l1 :: p ++ ck) with ((c :: i :: l0 :: l1 :: p) ++ ck).
    now rewrite drop_last_app.
  - unfold slice. cbn [firstn skipn app int_from_bytes_little]. lia.
Qed.

(** What the decoder makes of a frame laid out as the wire format says:
    sync marker, class, id, two length bytes, payload, two checksum bytes.
    The checksum is tested first, the length second. *)
Theorem UBX_decoder_on_wire_frame (c i l0 l1 a b : byte) (p : bytes) :
  let body := c :: i :: l0 :: l1 :: p in
  let declared := byte_int l0 + 256 * byte_int l1 in
  UBX_message_init (Bytes (sync ++ body ++ [a; b]))
  = if negb (ints_eqb [fst (fletcher8 body); snd (fletcher8 body)]
                      [byte_int a; byte_int b])
    then Raise (ValueError (wrong_checksum
                              [fst (fletcher8 body); snd (fletcher8 body)]
                              [byte_int a; byte_int b]))
    else if negb (len p =? declared)
    then Raise (ValueError (payload_length_incorrect (len p) declared))
    else Ok {| correct := true;
               raw_data := sync ++ body ++ [a; b];
               ubx_class := byte_int c;
               ubx_class_name := registry_name [c] (KStr "classname");
               ubx_id := byte_int i;
               ubx_id_name := registry_name [c] (KBytes [i]);
               length_field := declared;
               payload := p |}.
Proof.
  cbv zeta. rewrite UBX_message_init_eq, frame_body_sync. cbv zeta.
  unfold decoded.
  destruct (frame_slices c i l0 l1 p [a; b] eq_refl) as [Hp Hl].
  change ((c :: i :: l0 :: l1 :: p) ++ [a; b])
    with (c :: i :: l0 :: l1 :: p ++ [a; b]) in *.
  rewrite Hp, Hl.
  change (c :: i :: l0 :: l1 :: p ++ [a; b])
    with ((c :: i :: l0 :: l1 :: p) ++ [a; b]).
  rewrite drop_last_app, take_last_app by reflexivity.
  rewrite expected_checksum_ints. cbn [list_ints map].
  destruct (ints_eqb _ _); cbn [negb]; [|reflexivity].
  destruct (len p =? _); reflexivity.
Qed.

Lemma UBX_message_init_list (l : list Z) :
  UBX_message_init (IntList l)
  = (b <- bytes_of_ints l ;; UBX_message_init (Bytes b)).
Proof.
  unfold UBX_message_init. destruct (bytes_of_ints l); reflexivity.
Qed.

Lemma byte_of_int_out_of_range (n : Z) :
  n < 0 \/ 255 < n -> byte_of_int n = Raise (ValueError bytes_out_of_range).
Proof.
  intros [H|H]; [|now apply byte_of_int_large].
  unfold byte_of_int. now rewrite (proj2 (Z.ltb_lt n 0) H).
Qed.

Lemma byte_of_int_raises (n : Z) (e : exn) :
  byte_of_int n = Raise e -> e = ValueError bytes_out_of_range.
Proof.
  unfold byte_of_int. destruct (n <? 0); [congruence|].
  destruct (Byte.of_N (Z.to_N n)); congruence.
Qed.

Lemma bytes_of_ints_raises (l : list Z) (e : exn) :
  bytes_of_ints l = Raise e -> e = ValueError bytes_out_of_range.
Proof.
  induction l as [|n t IH]; cbn [bytes_of_ints]; [discriminate|].
  destruct (byte_of_int n) as [b|e0] eqn:E; cbn [bind].
  - destruct (bytes_of_ints t); cbn [bind]; [discriminate|].
    intros H. injection H as <-. now apply IH.
  - intros H. injection H as <-. now apply byte_of_int_raises in E.
Qed.

Lemma bytes_of_ints_out_of_range (l : list Z) :
  Exists (fun n => n < 0 \/ 255 < n) l ->
  bytes_of_ints l = Raise (ValueError bytes_out_of_range).
Proof.
  induction 1 as [n t H|n t _ IH]; cbn [bytes_of_ints].
  - now rewrite byte_of_int_out_of_range.
  - destruct (byte_of_int n) as [b|e] eqn:E; cbn [bind].
    + now rewrite IH.
    + now rewrite (byte_of_int_raises _ _ E).
Qed.

(** The constructor on a list of integers: a list of byte values is read
    as the [bytes] object of those values, and a list with a value outside
    [range(0, 256)] is refused before anything is decoded. *)
Theorem UBX_message_from_list :
  (forall b : bytes,
      UBX_message_init (IntList (list_ints b)) = UBX_message_init (Bytes b))
  /\ (forall l : list Z,
         Exists (fun n => n < 0 \/ 255 < n) l ->
         UBX_message_init (IntList l) = Raise (ValueError bytes_out_of_range)).
Proof.
  split.
  - intros b. now rewrite UBX_message_init_list, bytes_of_ints_list_ints.
  - intros l H. now rewrite UBX_message_init_list, bytes_of_ints_out_of_range.
Qed.

Lemma UBX_message_from_list_witness :
  UBX_message_init (IntList (list_ints reset_frame))
  = UBX_message_init (Bytes reset_frame)
  /\ UBX_message_init (IntList [6; 4; 256; 0])
     = Raise (ValueError bytes_out_of_range).
Proof.
  split.
  - apply (proj1 UBX_message_from_list reset_frame).
  - apply (proj2 UBX_message_from_list [6; 4; 256; 0]).
    right. right. left. right. lia.
Defined.

(** A message that was constructed keeps the invariants of the class: it
    is marked correct, its length field is the length of its payload, and
    its [raw_data] is a frame that decodes to the same message again. *)
Theorem UBX_message_invariants (data : ubx_data) (m : UBX_message) :
  UBX_message_init data = Ok m ->
  correct m = true
  /\ length_field m = len (payload m)
  /\ firstn 2 (raw_data m) = sync
  /\ UBX_message_init (Bytes (raw_data m)) = Ok m.
Proof.
  assert (Hb : forall b, UBX_message_init (Bytes b) = Ok m ->
                 correct m = true
                 /\ length_field m = len (payload m)
                 /\ firstn 2 (raw_data m) = sync
                 /\ UBX_message_init (Bytes (raw_data m)) = Ok m).
  { intros b H. pose proof H as H0. rewrite UBX_message_init_eq in H. cbv zeta in H.
    destruct (ints_eqb _ _) eqn:Eck; [|discriminate].
    destruct (len _ =? _) eqn:El; [|discriminate].
    injection H as <-. apply Z.eqb_eq in El.
    cbn [decoded correct length_field payload raw_data].
    split; [reflexivity|]. split; [symmetry; exact El|].
    split; [reflexivity|].
    rewrite UBX_message_init_eq, frame_body_sync. cbv zeta.
    now rewrite Eck, (proj2 (Z.eqb_eq _ _) El). }
  destruct data as [b|l]; [apply Hb|].
  rewrite UBX_message_init_list.
  destruct (bytes_of_ints l) as [b|e]; cbn [bind]; [apply Hb|discriminate].
Qed.

Lemma UBX_message_invariants_witness :
  correct (decoded reset_frame) = true
  /\ length_field (decoded reset_frame) = len (payload (decoded reset_frame))
  /\ firstn 2 (raw_data (decoded reset_frame)) = sync
  /\ UBX_message_init (Bytes (raw_data (decoded reset_frame)))
     = Ok (decoded reset_frame).
Proof.
  apply (UBX_message_invariants (Bytes reset_frame) (decoded reset_frame)).
  vm_compute. reflexivity.
Defined.

(** The constructor fails in three ways only, each a [ValueError]: the
    checksum test (with two different lists in the message), the length
    test (with two different numbers), and the conversion of a list with a
    value that is no byte.  It never indexes outside the buffer. *)
Theorem UBX_message_errors (data : ubx_data) (e : exn) :
  UBX_message_init data = Raise e ->
  (exists c d, e = ValueError (wrong_checksum c d) /\ c <> d)
  \/ (exists a l, e = ValueError (payload_length_incorrect a l) /\ a <> l)
  \/ (e = ValueError bytes_out_of_range /\ exists l, data = IntList l).
Proof.
  assert (Hb : forall b, UBX_message_init (Bytes b) = Raise e ->
      (exists c d, e = ValueError (wrong_checksum c d) /\ c <> d)
      \/ (exists a l, e = ValueError (payload_length_incorrect a l) /\ a <> l)).
  { intros b. rewrite UBX_message_init_eq. cbv zeta.
    destruct (ints_eqb _ _) eqn:Eck.
    - destruct (len _ =? _) eqn:El; [discriminate|].
      intros H. injection H as <-. right. do 2 eexists. split; [reflexivity|].
      now apply Z.eqb_neq.
    - intros H. injection H as <-. left. do 2 eexists. split; [reflexivity|].
      now apply ints_eqb_neq. }
  destruct data as [b|l].
  - intros H. destruct (Hb b H) as [H1|H1]; auto.
  - rewrite UBX_message_init_list.
    destruct (bytes_of_ints l) as [b|e0] eqn:E; cbn [bind].
    + intros H. destruct (Hb b H) as [H1|H1]; auto.
    + intros H. injection H as <-. right. right.
      split; [now apply bytes_of_ints_raises in E | eauto].
Qed.

Lemma UBX_message_errors_witness :
  (exists c d, ValueError (wrong_checksum [0; 0] []) = ValueError (wrong_checksum c d)
               /\ c <> d)
  \/ (exists a l, ValueError (wrong_checksum [0; 0] [])
                  = ValueError (payload_length_incorrect a l) /\ a <> l)
  \/ (ValueError (wrong_checksum [0; 0] []) = ValueError bytes_out_of_range
      /\ exists l, Bytes [] = IntList l).
Proof.
  apply (UBX_message_errors (Bytes [])). vm_compute. reflexivity.
Defined.

(** A buffer with fewer than two bytes, with or without a sync marker in
    front, fails the checksum test: the checksum of nothing, [0, 0], is
    compared with the bytes there are. *)
Theorem UBX_message_short_buffer (d : bytes) :
  (List.length d < 2)%nat ->
  UBX_message_init (Bytes d)
  = Raise (ValueError (wrong_checksum [0; 0] (list_ints d)))
  /\ UBX_message_init (Bytes (sync ++ d))
     = Raise (ValueError (wrong_checksum [0; 0] (list_ints d))).
Proof.
  intros H.
  assert (Hd : checksum_verifies d = false) by now apply checksum_verifies_short.
  assert (Hv : UBX_message_init (Bytes (sync ++ d))
               = Raise (ValueError (wrong_checksum [0; 0] (list_ints d)))).
  { rewrite UBX_message_init_wrong_checksum; rewrite frame_body_sync; [|exact Hd].
    destruct d as [|x [|y t]]; [reflexivity|reflexivity|cbn in H; lia]. }
  split; [|exact Hv].
  rewrite <- Hv. rewrite !UBX_message_init_eq, frame_body_sync.
  rewrite frame_body_no_sync; [reflexivity|].
  destruct d as [|x [|y t]]; [discriminate|discriminate|cbn in H; lia].
Qed.

Lemma UBX_message_short_buffer_witness :
  UBX_message_init (Bytes [x06])
  = Raise (ValueError (wrong_checksum [0; 0] (list_ints [x06])))
  /\ UBX_message_init (Bytes (sync ++ [x06]))
     = Raise (ValueError (wrong_checksum [0; 0] (list_ints [x06]))).
Proof.
  apply (UBX_message_short_buffer [x06]). cbn. lia.
Defined.

(** The checksum catches every change of a single byte between the sync
    marker and the checksum: if a frame decodes, the frame with one of its
    class, id, length or payload bytes replaced by another value fails the
    checksum test. *)
Theorem UBX_single_byte_corruption_detected
  (pre post ck : bytes) (x x' : byte) (m : UBX_message) :
  List.length ck = 2%nat ->
  x <> x' ->
  UBX_message_init (Bytes (sync ++ (pre ++ x :: post) ++ ck)) = Ok m ->
  exists c d,
    UBX_message_init (Bytes (sync ++ (pre ++ x' :: post) ++ ck))
    = Raise (ValueError (wrong_checksum c d)).
Proof.
  intros Hck Hne Hok.
  apply UBX_message_init_ok in Hok as [Hv _]. rewrite frame_body_sync in Hv.
  apply (checksum_verifies_app _ _ Hck) in Hv.
  rewrite UBX_message_init_wrong_checksum; [eauto|].
  rewrite frame_body_sync.
  destruct (checksum_verifies ((pre ++ x' :: post) ++ ck)) eqn:E; [|reflexivity].
  apply (checksum_verifies_app _ _ Hck) in E.
  exfalso. apply (expected_checksum_changed pre post x x' Hne). congruence.
Qed.

Lemma UBX_single_byte_corruption_detected_witness :
  exists c d,
    UBX_message_init
      (Bytes (sync ++ ([x06; x04; x04; x00] ++ x01 :: [x00; x00; x00]) ++ [x0e; x64]))
    = Raise (ValueError (wrong_checksum c d)).
Proof.
  apply (UBX_single_byte_corruption_detected
           [x06; x04; x04; x00] [x00; x00; x00] [x0e; x64] x00 x01
           (decoded reset_frame)).
  - reflexivity.
  - discriminate.
  - vm_compute. reflexivity.
Defined.

(** ** The registry *)








Lemma registry_name_unknown (x : byte) (k : key) :
  ~ In (byte_int x) registered_classes -> registry_name [x] k = PStr "unknown".
Proof.
  intros H. unfold registry_name.
  assert (N : forall y, In (byte_int y) registered_classes ->
                        key_eqb (KBytes [y]) (KBytes [x]) = false).
  { intros y Hy. cbn [key_eqb]. apply bytes_eqb_neq. intros E.
    injection E as ->. contradiction. }
  cbn [safeget getitem ubx_msg_dict find fst].
  rewrite !N by (cbn; tauto). reflexivity.
Qed.

(** A frame of a class that the registry has no entry for decodes all the
    same; the class name and the id name of the message are ["unknown"]. *)
Theorem unregistered_class_decodes_as_unknown (data : ubx_data) (m : UBX_message) :
  UBX_message_init data = Ok m ->
  ~ In (ubx_class m) registered_classes ->
  ubx_class_name m = PStr "unknown" /\ ubx_id_name m = PStr "unknown".
Proof.
  assert (Hb : forall b, UBX_message_init (Bytes b) = Ok m ->
                 ~ In (ubx_class m) registered_classes ->
                 ubx_class_name m = PStr "unknown"
                 /\ ubx_id_name m = PStr "unknown").
  { intros b H. apply UBX_message_init_ok in H as [_ ->].
    cbn [decoded ubx_class ubx_class_name ubx_id_name]. intros Hn.
    now rewrite !registry_name_unknown. }
  destruct data as [b|l]; [apply Hb|].
  rewrite UBX_message_init_list.
  destruct (bytes_of_ints l) as [b|e]; cbn [bind]; [apply Hb|discriminate].
Qed.

Lemma unregistered_class_decodes_as_unknown_witness :
  ubx_class_name (decoded [xb5; x62; x00; x00; x17; xfa]) = PStr "unknown"
  /\ ubx_id_name (decoded [xb5; x62; x00; x00; x17; xfa]) = PStr "unknown".
Proof.
  apply (unregistered_class_decodes_as_unknown
           (Bytes (sync ++ [xb5; x62; x00; x00; x17; xfa]))).
  - vm_compute. reflexivity.
  - vm_compute. intuition discriminate.
Defined.

(** ** The NMEA decoder *)

Lemma split_one_inv (sep : N) (s x : str) :
  split sep s = [x] -> x = s /\ ~ In sep s.
Proof.
  intros H. pose proof (split_length sep s) as L. rewrite H in L.
  assert (Hn : ~ In sep s) by (apply (count_occ_not_In N.eq_dec); cbn in L; lia).
  rewrite (split_no_sep sep s Hn) in H. split; [congruence|exact Hn].
Qed.

Lemma split_two_inv (sep : N) (s body chk : str) :
  split sep s = [body; chk] ->
  s = body ++ sep :: chk /\ ~ In sep body /\ ~ In sep chk.
Proof.
  revert body. induction s as [|c t IH]; intros body; cbn [split]; [discriminate|].
  destruct (N.eqb_spec c sep) as [->|Hne].
  - intros H. injection H as <- H. apply split_one_inv in H as [-> Hn].
    cbn. auto.
  - destruct (split sep t) as [|piece rest] eqn:E; [discriminate|].
    intros H. injection H as <- ->.
    destruct (IH piece eq_refl) as (-> & Hb & Hc).
    repeat split; auto. cbn [In]. intros [H|H]; [congruence|contradiction].
Qed.

Lemma xor_codes_app (a b : str) :
  xor_codes (a ++ b) = Z.lxor (xor_codes a) (xor_codes b).
Proof.
  induction a as [|c t IH]; cbn [app xor_codes]; [reflexivity|].
  now rewrite IH, Z.lxor_assoc.
Qed.

Lemma lxor_cancel_l (a x y : Z) : Z.lxor a x = Z.lxor a y -> x = y.
Proof.
  intros H. apply (f_equal (Z.lxor a)) in H.
  now rewrite <- !Z.lxor_assoc, Z.lxor_nilpotent, !Z.lxor_0_l in H.
Qed.

Lemma lxor_cancel_r (a x y : Z) : Z.lxor x a = Z.lxor y a -> x = y.
Proof.
  rewrite !(Z.lxor_comm _ a). apply lxor_cancel_l.
Qed.

Lemma xor_codes_changed (pre post : str) (c c' : N) :
  c <> c' -> xor_codes (pre ++ c :: post) <> xor_codes (pre ++ c' :: post).
Proof.
  intros Hne E. rewrite !xor_codes_app in E. cbn [xor_codes] in E.
  apply lxor_cancel_l, lxor_cancel_r in E. apply Hne. lia.
Qed.

(** What a constructed NMEA message holds, for any input on which the
    constructor succeeds: the text has exactly one ['*']; the checksum
    attribute is what stands between it and the last two characters, and
    reads, in base 16, as the XOR of the characters before the ['*']; the
    talker id and the type are the first two and the next three characters
    of the text; and the [correct] flag is left [False]. *)
Theorem NMEA_message_contents (data : nmea_input) (text : str) (m : NMEA_message) :
  as_str data = Ok text ->
  NMEA_message_init data = Ok m ->
  nmea_raw_data m = text
  /\ talker_id m = firstn 2 text
  /\ msg_type m = skipn 2 (firstn 5 text)
  /\ nmea_data m = skipn 6 (firstn (List.length text - 5) text)
  /\ nmea_correct m = false
  /\ exists body chk,
       text = body ++ star :: chk
       /\ ~ In star body /\ ~ In star chk
       /\ checksum m = firstn (List.length chk - 2) chk
       /\ int16 (checksum m) = Ok (xor_codes body).
Proof.
  intros Et. rewrite NMEA_message_init_eq, Et. cbn [bind]. unfold unpack2.
  destruct (split star text) as [|body [|chk [|z l]]] eqn:Es; cbn [bind];
    try discriminate.
  destruct (int16 (drop_last 2 chk)) as [parsed|e] eqn:Ei; cbn [bind];
    [|discriminate].
  destruct (Z.eqb_spec (xor_codes body) parsed) as [Ex|_]; [|discriminate].
  intros H. injection H as <-.
  cbn [nmea_decoded nmea_raw_data talker_id msg_type nmea_data nmea_correct checksum].
  repeat (split; [reflexivity|]).
  destruct (split_two_inv star text body chk Es) as (Htext & Hb & Hc).
  exists body, chk. repeat split; auto. now rewrite Ei, Ex.
Qed.

Lemma NMEA_message_contents_witness :
  nmea_raw_data (nmea_decoded rmc_text (ascii_str "6A")) = rmc_text
  /\ talker_id (nmea_decoded rmc_text (ascii_str "6A")) = firstn 2 rmc_text
  /\ msg_type (nmea_decoded rmc_text (ascii_str "6A")) = skipn 2 (firstn 5 rmc_text)
  /\ nmea_data (nmea_decoded rmc_text (ascii_str "6A"))
     = skipn 6 (firstn (List.length rmc_text - 5) rmc_text)
  /\ nmea_correct (nmea_decoded rmc_text (ascii_str "6A")) = false
  /\ exists body chk,
       rmc_text = body ++ star :: chk
       /\ ~ In star body /\ ~ In star chk
       /\ checksum (nmea_decoded rmc_text (ascii_str "6A"))
          = firstn (List.length chk - 2) chk
       /\ int16 (checksum (nmea_decoded rmc_text (ascii_str "6A")))
          = Ok (xor_codes body).
Proof.
  apply (NMEA_message_contents (Encoded (rmc_sentence "6A")) rmc_text
           (nmea_decoded rmc_text (ascii_str "6A")));
    vm_compute; reflexivity.
Defined.

(** The XOR catches every change of a single character before the ['*']:
    if a sentence with a two-digit checksum field decodes, the sentence with
    one body character replaced by another (not a ['*']) fails the checksum
    test. *)
Theorem NMEA_single_character_corruption_detected
  (data data' : nmea_input) (pre post : str) (c c' h1 h2 t1 t2 : N)
  (m : NMEA_message) :
  as_str data = Ok ((pre ++ c :: post) ++ [star; h1; h2; t1; t2]) ->
  as_str data' = Ok ((pre ++ c' :: post) ++ [star; h1; h2; t1; t2]) ->
  is_hex_digit h1 = true -> is_hex_digit h2 = true ->
  c' <> c -> c' <> star ->
  NMEA_message_init data = Ok m ->
  exists x y,
    NMEA_message_init data' = Raise (ValueError (nmea_checksum_mismatch x y)).
Proof.
  intros Et Et' H1 H2 Hne Hstar Hok.
  pose proof (NMEA_ok_one_star _ _ _ Et Hok) as Hone.
  apply sentence_stars in Hone as [Hb Ht].
  assert (Hb' : ~ In star (pre ++ c' :: post)).
  { intros Hin. apply Hb. apply in_app_or in Hin as [Hin|[Hin|Hin]].
    - apply in_or_app. now left.
    - congruence.
    - apply in_or_app. right. now right. }
  rewrite (NMEA_sentence data (pre ++ c :: post) h1 h2 t1 t2) in Hok
    by assumption.
  rewrite (NMEA_sentence data' (pre ++ c' :: post) h1 h2 t1 t2) by assumption.
  destruct (Z.eqb_spec (xor_codes (pre ++ c :: post))
                       (16 * hex_value h1 + hex_value h2)) as [Ex|_];
    [|discriminate Hok].
  destruct (Z.eqb_spec (xor_codes (pre ++ c' :: post))
                       (16 * hex_value h1 + hex_value h2)) as [Ex'|_]; [|eauto].
  exfalso. apply (xor_codes_changed pre post c c'); congruence.
Qed.

Lemma NMEA_single_character_corruption_detected_witness :
  exists x y,
    NMEA_message_init
      (Str ((ascii_str "GPRMC,12351" ++ 56%N :: skipn 12 (ascii_str rmc_body))
            ++ [star; 54; 65; 13; 10]%N))
    = Raise (ValueError (nmea_checksum_mismatch x y)).
Proof.
  apply (NMEA_single_character_corruption_detected
           (Encoded (rmc_sentence "6A"))
           (Str ((ascii_str "GPRMC,12351" ++ 56%N :: skipn 12 (ascii_str rmc_body))
                 ++ [star; 54; 65; 13; 10]%N))
           (ascii_str "GPRMC,12351") (skipn 12 (ascii_str rmc_body))
           57%N 56%N 54%N 65%N 13%N 10%N
           (nmea_decoded rmc_text (ascii_str "6A")));
    try (vm_compute; reflexivity); discriminate.
Defined.

(** The checksum covers everything before the ['*'], a leading ['$']
    included.  A sentence given with its ['$'], whose checksum field as the
    constructor reads it (the characters after the ['*'] without the last
    two of the sentence) parses to the checksum of the NMEA standard, the
    XOR of the characters between ['$'] and ['*'], is therefore refused: the
    XOR the constructor computes differs by 0x24.  That is the case of
    every standard sentence [$body*HH] closed by CR LF. *)
Theorem NMEA_leading_dollar_refused
  (data : nmea_input) (body chk : str) :
  as_str data = Ok (dollar :: body ++ star :: chk) ->
  count_occ N.eq_dec (body ++ star :: chk) star = 1%nat ->
  (int16 (drop_last 2 chk) = Ok (xor_codes body) ->
   NMEA_message_init data
   = Raise (ValueError
              (nmea_checksum_mismatch (hex (Z.lxor 36 (xor_codes body)))
                                      (hex (xor_codes body)))))
  /\ (forall h1 h2 t1 t2 : N,
         chk = [h1; h2; t1; t2] ->
         is_hex_digit h1 = true -> is_hex_digit h2 = true ->
         xor_codes body = 16 * hex_value h1 + hex_value h2 ->
         NMEA_message_init data
         = Raise (ValueError
                    (nmea_checksum_mismatch (hex (Z.lxor 36 (xor_codes body)))
                                            (hex (xor_codes body))))).
Proof.
  intros Et Hone. apply one_star in Hone as [Hb Ht].
  assert (Hb' : ~ In star (dollar :: body)).
  { intros [H|H]; [discriminate H|contradiction]. }
  assert (General :
    int16 (drop_last 2 chk) = Ok (xor_codes body) ->
    NMEA_message_init data
    = Raise (ValueError
               (nmea_checksum_mismatch (hex (Z.lxor 36 (xor_codes body)))
                                       (hex (xor_codes body))))).
  { intros Hx.
    rewrite (NMEA_one_star data (dollar :: body) chk Et Hb' Ht), Hx.
    cbn [bind xor_codes]. change (Z.of_N dollar) with 36.
    destruct (Z.eqb_spec (Z.lxor 36 (xor_codes body)) (xor_codes body)) as [E|_];
      [|reflexivity].
    exfalso. rewrite <- (Z.lxor_0_l (xor_codes body)) in E at 2.
    apply lxor_cancel_r in E. discriminate E. }
  split; [exact General|].
  intros h1 h2 t1 t2 Hc H1 H2 Hx. apply General. rewrite Hc.
  change (drop_last 2 [h1; h2; t1; t2]) with [h1; h2].
  now rewrite (int16_two_digits h1 h2 H1 H2), Hx.
Qed.

Lemma NMEA_leading_dollar_refused_witness :
  NMEA_message_init (Str (dollar :: rmc_text))
  = Raise (ValueError
             (nmea_checksum_mismatch
                (hex (Z.lxor 36 (xor_codes (ascii_str rmc_body))))
                (hex (xor_codes (ascii_str rmc_body))))).
Proof.
  refine (proj2 (NMEA_leading_dollar_refused
                   (Str (dollar :: rmc_text)) (ascii_str rmc_body)
                   [54; 65; 13; 10]%N _ _)
                54%N 65%N 13%N 10%N _ _ _ _);
    vm_compute; reflexivity.
Defined.

(** ** The stream parser on whole frames *)

Lemma singletons_app (a b : bytes) :
  singletons (a ++ b) = singletons a ++ singletons b.
Proof.
  apply map_app.
Qed.

Lemma len_singletons (l : bytes) : len (singletons l) = len l.
Proof.
  unfold len, singletons. now rewrite length_map.
Qed.

Lemma concat_singletons (l : bytes) : List.concat (singletons l) = l.
Proof.
  induction l as [|x t IH]; [reflexivity|].
  cbn [singletons map List.concat app]. fold (singletons t). now rewrite IH.
Qed.

Lemma declared_length_singletons (frame : bytes) :
  4 <= len frame -> declared_length (singletons frame) = frame_length_field frame.
Proof.
  destruct frame as [|a [|b [|c [|d t]]]]; unfold len; cbn [List.length]; try lia.
  reflexivity.
Qed.

Lemma frame_length_field_app (a b : bytes) :
  4 <= len a -> frame_length_field (a ++ b) = frame_length_field a.
Proof.
  destruct a as [|x0 [|x1 [|x2 [|x3 t]]]]; unfold len; cbn [List.length]; try lia.
  reflexivity.
Qed.

Lemma len_app {A : Type} (a b : list A) : len (a ++ b) = len a + len b.
Proof.
  unfold len. rewrite length_app. lia.
Qed.

Lemma frame_result_singletons (frame : bytes) :
  frame_result UBX (singletons frame)
  = match UBX_message_init (Bytes frame) with
    | Ok message => ubx_message message
    | Raise err => invalid_ubx_message err
    end.
Proof.
  unfold frame_result. now rewrite concat_singletons.
Qed.

Lemma nmea_turn_other_mode (self : UBX_receiver) (byte : bytes) :
  current_parse self = Some UBX -> nmea_turn self byte = (self, Next).
Proof.
  intros H. unfold nmea_turn, current_parse_is. now rewrite H.
Qed.

(** A turn in UBX mode that leaves the frame incomplete. *)
Lemma loop_body_ubx_partial (self : UBX_receiver) (byte : bytes) :
  current_parse self = Some UBX ->
  len (parse_data self ++ [byte]) < 4
  \/ len (parse_data self ++ [byte])
     <> declared_length (parse_data self ++ [byte]) + 6 ->
  loop_body self byte
  = (with_parse self (Some UBX) (parse_data self ++ [byte]), Next).
Proof.
  intros Hmode Hpart. unfold loop_body. rewrite Hmode.
  assert (E : ubx_turn self byte
              = (with_parse self (Some UBX) (parse_data self ++ [byte]), Next)).
  { unfold ubx_turn, current_parse_is. rewrite Hmode.
    cbn [mode_eqb with_parse parse_data].
    destruct (Z.leb_spec 4 (len (parse_data self ++ [byte]))) as [H4|H4];
      [|reflexivity].
    assert (Hn : (4 <= List.length (parse_data self ++ [byte]))%nat)
      by (unfold len in H4; lia).
    rewrite (index_nth (parse_data self ++ [byte]) 2 [] ltac:(lia)).
    rewrite (index_nth (parse_data self ++ [byte]) 3 [] ltac:(lia)).
    fold (declared_length (parse_data self ++ [byte])).
    destruct (Z.eqb_spec (len (parse_data self ++ [byte]))
                (declared_length (parse_data self ++ [byte]) + 6)); [lia|].
    reflexivity. }
  rewrite E. now apply nmea_turn_other_mode.
Qed.

Lemma loop_body_ubx_complete (self : UBX_receiver) (byte : bytes) :
  current_parse self = Some UBX ->
  4 <= len (parse_data self ++ [byte]) ->
  len (parse_data self ++ [byte]) = declared_length (parse_data self ++ [byte]) + 6 ->
  loop_body self byte
  = (reset_data (with_parse self (Some UBX) (parse_data self ++ [byte])),
     Return (Some (frame_result UBX (parse_data self ++ [byte])))).
Proof.
  intros Hmode H4 Hlen. unfold loop_body. rewrite Hmode.
  now rewrite (ubx_turn_complete self byte Hmode H4 Hlen).
Qed.

(** A frame prefix that is followed by more bytes of the frame is not
    complete. *)
Lemma strict_prefix_incomplete (pre more : bytes) :
  complete_frame (pre ++ more) -> more <> [] ->
  len (singletons pre) < 4
  \/ len (singletons pre) <> declared_length (singletons pre) + 6.
Proof.
  intros [H4 Hlen] Hne. rewrite len_singletons.
  destruct (Z.lt_ge_cases (len pre) 4) as [Hs|Hs]; [now left|right].
  rewrite declared_length_singletons by lia.
  rewrite frame_length_field_app in Hlen by lia.
  rewrite len_app in Hlen.
  assert (0 < len more) by (destruct more; [congruence|unfold len; cbn; lia]).
  lia.
Qed.

Lemma complete_singletons (frame : bytes) :
  complete_frame frame ->
  4 <= len (singletons frame)
  /\ len (singletons frame) = declared_length (singletons frame) + 6.
Proof.
  intros [H4 Hlen]. rewrite len_singletons.
  now rewrite declared_length_singletons.
Qed.

(** One call of [parse] in UBX mode: the bytes that complete the frame are
    read, the rest stays in the port. *)
Lemma parse_loop_ubx_collect (more : bytes) :
  forall (pre : bytes) (self : UBX_receiver) (rest : bytes),
    current_parse self = Some UBX ->
    parse_data self = singletons pre ->
    complete_frame (pre ++ more) -> more <> [] ->
    parse_loop (more ++ rest) self
    = ({| port := {| in_waiting := rest; written := written (port self) |};
          current_parse := None; parse_data := [];
          last_byte := last_byte self |},
       Ok (Some (frame_result UBX (singletons (pre ++ more))))).
Proof.
  induction more as [|b more IH]; intros pre self rest Hmode Hdata Hc Hne;
    [congruence|].
  cbn [app parse_loop].
  set (self1 := with_port self _).
  assert (Hmode1 : current_parse self1 = Some UBX) by exact Hmode.
  assert (Hdata1 : parse_data self1 ++ [[b]] = singletons (pre ++ [b])).
  { change (parse_data self1) with (parse_data self).
    now rewrite Hdata, singletons_app. }
  destruct more as [|b2 more].
  - destruct (complete_singletons _ Hc) as [H4 Hlen].
    rewrite <- Hdata1 in H4, Hlen.
    rewrite (loop_body_ubx_complete self1 [b] Hmode1 H4 Hlen).
    now rewrite Hdata1.
  - assert (Hc' : complete_frame ((pre ++ [b]) ++ b2 :: more))
      by now rewrite <- app_assoc.
    pose proof (strict_prefix_incomplete _ _ Hc' ltac:(discriminate)) as Hp.
    rewrite <- Hdata1 in Hp.
    rewrite (loop_body_ubx_partial self1 [b] Hmode1 Hp).
    rewrite (IH (pre ++ [b])
               (with_parse self1 (Some UBX) (parse_data self1 ++ [[b]]))
               rest eq_refl Hdata1 Hc' ltac:(discriminate)).
    now rewrite <- app_assoc.
Qed.

(** One call of [parse] in UBX mode on bytes that do not complete the
    frame: all of them are read into the buffer. *)
Lemma parse_loop_ubx_partial (chunk : bytes) :
  forall (pre more : bytes) (self : UBX_receiver),
    current_parse self = Some UBX ->
    parse_data self = singletons pre ->
    complete_frame (pre ++ chunk ++ more) -> more <> [] ->
    parse_loop chunk self
    = ({| port := match chunk with
                  | [] => port self
                  | _ :: _ => {| in_waiting := []; written := written (port self) |}
                  end;
          current_parse := Some UBX;
          parse_data := singletons (pre ++ chunk);
          last_byte := last_byte self |},
       Ok None).
Proof.
  induction chunk as [|b chunk IH]; intros pre more self Hmode Hdata Hc Hne.
  - cbn [parse_loop]. rewrite app_nil_r, <- Hdata, <- Hmode.
    now destruct self.
  - cbn [parse_loop].
    set (self1 := with_port self _).
    assert (Hmode1 : current_parse self1 = Some UBX) by exact Hmode.
    assert (Hdata1 : parse_data self1 ++ [[b]] = singletons (pre ++ [b])).
    { change (parse_data self1) with (parse_data self).
      now rewrite Hdata, singletons_app. }
    assert (Hc' : complete_frame ((pre ++ [b]) ++ chunk ++ more))
      by (rewrite <- app_assoc; exact Hc).
    assert (Hp : len (singletons (pre ++ [b])) < 4
                 \/ len (singletons (pre ++ [b]))
                    <> declared_length (singletons (pre ++ [b])) + 6).
    { apply (strict_prefix_incomplete _ (chunk ++ more) Hc').
      destruct chunk; [exact Hne|discriminate]. }
    rewrite <- Hdata1 in Hp.
    rewrite (loop_body_ubx_partial self1 [b] Hmode1 Hp).
    rewrite (IH (pre ++ [b]) more
               (with_parse self1 (Some UBX) (parse_data self1 ++ [[b]]))
               eq_refl Hdata1 Hc' Hne).
    rewrite <- app_assoc. cbn [app]. destruct chunk; reflexivity.
Qed.

Lemma feed_each_app (a b : bytes) (self : UBX_receiver) :
  feed_each self (a ++ b)
  = (fst (feed_each (fst (feed_each self a)) b),
     snd (feed_each self a) ++ snd (feed_each (fst (feed_each self a)) b)).
Proof.
  revert self. induction a as [|x t IH]; intros self.
  - cbn [app feed_each fst snd]. now destruct (feed_each self b).
  - cbn [app feed_each]. destruct (feed self x) as [s1 r1].
    rewrite IH. destruct (feed_each s1 t) as [s2 r2]. cbn [fst snd].
    now destruct (feed_each s2 b).
Qed.

Lemma feed_each_ubx (more : bytes) :
  forall (pre : bytes) (self : UBX_receiver),
    current_parse self = Some UBX ->
    parse_data self = singletons pre ->
    complete_frame (pre ++ more) -> more <> [] ->
    feed_each self more
    = ({| port := {| in_waiting := []; written := written (port self) |};
          current_parse := None; parse_data := [];
          last_byte := last_byte self |},
       repeat (Ok None) (List.length more - 1)
       ++ [Ok (Some (frame_result UBX (singletons (pre ++ more))))]).
Proof.
  induction more as [|b more IH]; intros pre self Hmode Hdata Hc Hne;
    [congruence|].
  cbn [feed_each]. unfold feed, parse. cbn [port in_waiting with_port].
  set (self0 := with_port self _).
  assert (Hmode0 : current_parse self0 = Some UBX) by exact Hmode.
  assert (Hdata0 : parse_data self0 = singletons pre) by exact Hdata.
  destruct more as [|b2 more].
  - pose proof (parse_loop_ubx_collect [b] pre self0 [] Hmode0 Hdata0 Hc Hne) as P.
    cbn [app] in P. rewrite P. reflexivity.
  - pose proof (parse_loop_ubx_partial [b] pre (b2 :: more) self0 Hmode0 Hdata0 Hc
                  ltac:(discriminate)) as P.
    rewrite P.
    assert (Hc' : complete_frame ((pre ++ [b]) ++ b2 :: more))
      by now rewrite <- app_assoc.
    erewrite (IH (pre ++ [b]));
      [|reflexivity|reflexivity|exact Hc'|discriminate].
    rewrite <- app_assoc. cbn [app List.length repeat Nat.sub last_byte port written].
    now rewrite Nat.sub_0_r.
Qed.

(** The generalisation of C6 to every frame: from any idle state, the sync
    marker followed by a frame whose length is its declared length plus 6,
    fed one byte per call, makes every call but the last return [None] and
    the last return the outcome of decoding the frame; the parser is idle
    again afterwards. *)
Theorem UBX_frame_byte_by_byte
  (p : Port) (buffer : list bytes) (last : option bytes) (frame : bytes) :
  complete_frame frame ->
  feed_each {| port := p; current_parse := None;
               parse_data := buffer; last_byte := last |}
            (sync ++ frame)
  = (idle_state {| in_waiting := []; written := written p |} (Some [x62]),
     repeat (Ok None) (List.length frame + 1)
     ++ [Ok (Some match UBX_message_init (Bytes frame) with
                  | Ok message => ubx_message message
                  | Raise err => invalid_ubx_message err
                  end)]).
Proof.
  intros Hc. rewrite feed_each_app.
  assert (Hs : feed_each {| port := p; current_parse := None;
                            parse_data := buffer; last_byte := last |} sync
               = ({| port := {| in_waiting := []; written := written p |};
                     current_parse := Some UBX; parse_data := [];
                     last_byte := Some [x62] |}, [Ok None; Ok None]))
    by (vm_compute; reflexivity).
  rewrite Hs. cbn [fst snd].
  assert (Hne : frame <> []).
  { destruct Hc as [H4 _]. destruct frame; [unfold len in H4; cbn in H4; lia|discriminate]. }
  erewrite (feed_each_ubx frame []);
    [|reflexivity|reflexivity|exact Hc|exact Hne].
  cbn [fst snd app]. rewrite frame_result_singletons. unfold idle_state.
  f_equal. destruct frame as [|x t]; [congruence|].
  cbn [List.length Nat.sub]. rewrite Nat.sub_0_r.
  replace (S (List.length t) + 1)%nat with (S (S (List.length t))) by lia.
  reflexivity.
Qed.

Lemma UBX_frame_byte_by_byte_witness :
  feed_each {| port := idle_port; current_parse := None;
               parse_data := [[x01]]; last_byte := Some ["$"%byte] |}
            (sync ++ [x05; x01; x02; x00; x06; x8a; x98; xc1])
  = (idle_state {| in_waiting := []; written := written idle_port |} (Some [x62]),
     repeat (Ok None) (List.length [x05; x01; x02; x00; x06; x8a; x98; xc1] + 1)
     ++ [Ok (Some match UBX_message_init
                          (Bytes [x05; x01; x02; x00; x06; x8a; x98; xc1]) with
                  | Ok message => ubx_message message
                  | Raise err => invalid_ubx_message err
                  end)]).
Proof.
  apply (UBX_frame_byte_by_byte idle_port [[x01]] (Some ["$"%byte])
           [x05; x01; x02; x00; x06; x8a; x98; xc1]).
  split; vm_compute; [discriminate|reflexivity].
Defined.

Lemma built_frame (c i : byte) (pl : bytes) :
  (List.length pl <= 255)%nat ->
  exists frame,
    ubx_msg [c] [i] pl = Ok (sync ++ frame)
    /\ complete_frame frame
    /\ firstn 2 frame = [c; i]
    /\ UBX_message_init (Bytes (sync ++ frame)) = Ok (decoded frame)
    /\ ubx_class (decoded frame) = byte_int c
    /\ ubx_id (decoded frame) = byte_int i
    /\ payload (decoded frame) = pl.
Proof.
  intros H. destruct (ubx_msg_short [c] [i] pl H) as (lb & V & E).
  cbn [app] in E.
  exists ((c :: i :: lb :: x00 :: pl) ++ expected_checksum (c :: i :: lb :: x00 :: pl)).
  destruct (frame_slices c i lb x00 pl (expected_checksum (c :: i :: lb :: x00 :: pl))
              (expected_checksum_length _)) as [Hp Hl].
  change (byte_int x00) with 0 in Hl. rewrite V in Hl.
  change (c :: i :: lb :: x00 :: pl ++ expected_checksum (c :: i :: lb :: x00 :: pl))
    with ((c :: i :: lb :: x00 :: pl) ++ expected_checksum (c :: i :: lb :: x00 :: pl))
    in Hp, Hl.
  split; [exact E|].
  split.
  { unfold complete_frame, frame_length_field. rewrite Hl, len_app.
    unfold len. rewrite expected_checksum_length. cbn [List.length]. lia. }
  split; [reflexivity|].
  split.
  { rewrite UBX_message_init_eq, frame_body_sync. cbv zeta.
    fold (checksum_verifies
            ((c :: i :: lb :: x00 :: pl)
             ++ expected_checksum (c :: i :: lb :: x00 :: pl))).
    rewrite (proj2 (checksum_verifies_app _ _ (expected_checksum_length _)) eq_refl).
    rewrite Hp, Hl, Z.add_0_r, Z.eqb_refl. reflexivity. }
  cbn [decoded ubx_class ubx_id payload]. now rewrite Hp.
Qed.

(** What the builder writes, the parser reads back: for a payload of at
    most 255 bytes and a class and id that are not the two bytes of the
    sync marker, the frame of [ubx_msg], fed byte by byte to an idle parser,
    yields one message, at the last byte, with the class, the id and the
    payload the frame was built from. *)
Theorem built_frame_parses_back (p : Port) (c i : byte) (pl : bytes) :
  (List.length pl <= 255)%nat ->
  [c; i] <> sync ->
  exists frame m,
    ubx_msg [c] [i] pl = Ok frame
    /\ snd (feed_each (idle_state p None) frame)
       = repeat (Ok None) (List.length frame - 1) ++ [Ok (Some (ubx_message m))]
    /\ ubx_class m = byte_int c /\ ubx_id m = byte_int i /\ payload m = pl.
Proof.
  intros H Hns.
  destruct (built_frame c i pl H) as (frame & E & Hc & Hf & Hd & Hcl & Hid & Hpl).
  exists (sync ++ frame), (decoded frame).
  split; [exact E|]. split; [|auto].
  assert (Hne : frame <> []).
  { destruct frame; [discriminate Hf|discriminate]. }
  unfold idle_state. rewrite feed_each_app.
  assert (Hs : feed_each {| port := p; current_parse := None;
                            parse_data := []; last_byte := None |} sync
               = ({| port := {| in_waiting := []; written := written p |};
                     current_parse := Some UBX; parse_data := [];
                     last_byte := Some [x62] |}, [Ok None; Ok None]))
    by (vm_compute; reflexivity).
  rewrite Hs. cbn [fst snd].
  erewrite (feed_each_ubx frame []);
    [|reflexivity|reflexivity|exact Hc|exact Hne].
  cbn [snd app]. rewrite frame_result_singletons.
  assert (Hd' : UBX_message_init (Bytes frame) = Ok (decoded frame)).
  { rewrite <- Hd. rewrite !UBX_message_init_eq, frame_body_sync.
    rewrite frame_body_no_sync; [reflexivity|]. now rewrite Hf. }
  rewrite Hd'. rewrite length_app. cbn [sync List.length app].
  destruct frame as [|x t]; [congruence|].
  cbn [List.length Nat.add Nat.sub]. rewrite Nat.sub_0_r. reflexivity.
Qed.

Lemma built_frame_parses_back_witness :
  exists frame m,
    ubx_msg [x06] [x8a] [x00; x01; x00; x00] = Ok frame
    /\ snd (feed_each (idle_state idle_port None) frame)
       = repeat (Ok None) (List.length frame - 1) ++ [Ok (Some (ubx_message m))]
    /\ ubx_class m = byte_int x06 /\ ubx_id m = byte_int x8a
    /\ payload m = [x00; x01; x00; x00].
Proof.
  apply (built_frame_parses_back idle_port x06 x8a [x00; x01; x00; x00]).
  - cbn. lia.
  - discriminate.
Defined.

(** The case the previous property leaves out: a frame built for class
    0xB5 and id 0x62 reaches the decoder without a sync marker, loses its
    first two bytes as if they were one, and comes back as a checksum
    failure, whatever the payload. *)
Theorem built_frame_with_sync_like_class_lost (p : Port) (pl : bytes) :
  (List.length pl <= 255)%nat ->
  exists frame c d,
    ubx_msg [xb5] [x62] pl = Ok frame
    /\ snd (feed_each (idle_state p None) frame)
       = repeat (Ok None) (List.length frame - 1)
         ++ [Ok (Some (invalid_ubx_message (ValueError (wrong_checksum c d))))].
Proof.
  intros H.
  destruct (built_frame xb5 x62 pl H) as (frame & E & Hc & Hf & _).
  assert (Hne : frame <> []) by (destruct frame; [discriminate Hf|discriminate]).
  destruct (ubx_msg_short [xb5] [x62] pl H) as (lb & V & E').
  rewrite E in E'. injection E' as Eframe. cbn [app] in Eframe.
  set (rest := lb :: x00 :: pl) in *.
  assert (Hbad : checksum_verifies (frame_body frame) = false).
  { rewrite Eframe. unfold frame_body. cbn [firstn skipn app].
    rewrite (proj2 (bytes_eqb_eq [xb5; x62] sync) eq_refl).
    match goal with
    | |- checksum_verifies ?x = false =>
        change x with (rest ++ expected_checksum (xb5 :: x62 :: rest))
    end.
    destruct (checksum_verifies (rest ++ expected_checksum (xb5 :: x62 :: rest)))
      eqn:Ev; [|reflexivity].
    apply (checksum_verifies_app _ _ (expected_checksum_length _)) in Ev.
    apply (f_equal list_ints) in Ev. rewrite !expected_checksum_ints in Ev.
    injection Ev as EA _. rewrite !fletcher8_fst in EA.
    cbn [byte_sum fold_right] in EA. fold (byte_sum rest) in EA.
    change (byte_int xb5) with 181 in EA. change (byte_int x62) with 98 in EA.
    exfalso.
    assert (D : (181 + (98 + byte_sum rest) - byte_sum rest) mod 256 = 0)
      by (rewrite Zminus_mod, EA, Z.sub_diag; reflexivity).
    replace (181 + (98 + byte_sum rest) - byte_sum rest) with 279 in D by lia.
    discriminate D. }
  exists (sync ++ frame). do 2 eexists. split; [exact E|].
  unfold idle_state. rewrite feed_each_app.
  assert (Hs : feed_each {| port := p; current_parse := None;
                            parse_data := []; last_byte := None |} sync
               = ({| port := {| in_waiting := []; written := written p |};
                     current_parse := Some UBX; parse_data := [];
                     last_byte := Some [x62] |}, [Ok None; Ok None]))
    by (vm_compute; reflexivity).
  rewrite Hs. cbn [fst snd].
  erewrite (feed_each_ubx frame []);
    [|reflexivity|reflexivity|exact Hc|exact Hne].
  cbn [snd app]. rewrite frame_result_singletons.
  rewrite (UBX_message_init_wrong_checksum frame Hbad).
  rewrite length_app. cbn [sync List.length app].
  destruct frame as [|x t]; [congruence|].
  cbn [List.length Nat.add Nat.sub]. rewrite Nat.sub_0_r. reflexivity.
Qed.

Lemma built_frame_with_sync_like_class_lost_witness :
  exists frame c d,
    ubx_msg [xb5] [x62] [x01; x02] = Ok frame
    /\ snd (feed_each (idle_state idle_port None) frame)
       = repeat (Ok None) (List.length frame - 1)
         ++ [Ok (Some (invalid_ubx_message (ValueError (wrong_checksum c d))))].
Proof.
  apply (built_frame_with_sync_like_class_lost idle_port [x01; x02]).
  cbn. lia.
Defined.

(** One call of [parse] while a UBX frame is collected reads up to the end
    of the frame and no further: with the rest of the frame waiting,
    followed by other bytes, the call returns the outcome of decoding the
    frame, leaves those other bytes in the port and the parser idle. *)
Theorem parse_reads_to_end_of_frame
  (self : UBX_receiver) (pre more rest : bytes) :
  current_parse self = Some UBX ->
  parse_data self = singletons pre ->
  in_waiting (port self) = more ++ rest ->
  complete_frame (pre ++ more) -> more <> [] ->
  parse self
  = ({| port := {| in_waiting := rest; written := written (port self) |};
        current_parse := None; parse_data := [];
        last_byte := last_byte self |},
     Ok (Some match UBX_message_init (Bytes (pre ++ more)) with
              | Ok message => ubx_message message
              | Raise err => invalid_ubx_message err
              end)).
Proof.
  intros Hmode Hdata Hin Hc Hne. unfold parse. rewrite Hin.
  rewrite (parse_loop_ubx_collect more pre self rest Hmode Hdata Hc Hne).
  now rewrite frame_result_singletons.
Qed.

Lemma parse_reads_to_end_of_frame_witness :
  parse {| port := {| in_waiting := [x00; x00; x0e; x64] ++ [xb5; x62];
                      written := [] |};
           current_parse := Some UBX;
           parse_data := singletons [x06; x04; x04; x00; x00; x00];
           last_byte := Some [x62] |}
  = ({| port := {| in_waiting := [xb5; x62]; written := [] |};
        current_parse := None; parse_data := [];
        last_byte := Some [x62] |},
     Ok (Some match UBX_message_init
                      (Bytes ([x06; x04; x04; x00; x00; x00]
                              ++ [x00; x00; x0e; x64])) with
              | Ok message => ubx_message message
              | Raise err => invalid_ubx_message err
              end)).
Proof.
  apply (parse_reads_to_end_of_frame
           {| port := {| in_waiting := [x00; x00; x0e; x64] ++ [xb5; x62];
                         written := [] |};
              current_parse := Some UBX;
              parse_data := singletons [x06; x04; x04; x00; x00; x00];
              last_byte := Some [x62] |}
           [x06; x04; x04; x00; x00; x00] [x00; x00; x0e; x64] [xb5; x62]).
  - reflexivity.
  - reflexivity.
  - reflexivity.
  - split; vm_compute; [discriminate|reflexivity].
  - discriminate.
Defined.

(** While the frame is not complete, a call of [parse] reads every waiting
    byte into the buffer and returns [None], with the parser still
    collecting. *)
Theorem parse_keeps_collecting_ubx
  (self : UBX_receiver) (pre chunk more : bytes) :
  current_parse self = Some UBX ->
  parse_data self = singletons pre ->
  in_waiting (port self) = chunk ->
  chunk <> [] ->
  complete_frame (pre ++ chunk ++ more) -> more <> [] ->
  parse self
  = ({| port := {| in_waiting := []; written := written (port self) |};
        current_parse := Some UBX;
        parse_data := singletons (pre ++ chunk);
        last_byte := last_byte self |},
     Ok None).
Proof.
  intros Hmode Hdata Hin Hch Hc Hne. unfold parse. rewrite Hin.
  rewrite (parse_loop_ubx_partial chunk pre more self Hmode Hdata Hc Hne).
  destruct chunk; [congruence|reflexivity].
Qed.

Lemma parse_keeps_collecting_ubx_witness :
  parse {| port := {| in_waiting := [x06; x04; x04]; written := [] |};
           current_parse := Some UBX;
           parse_data := singletons [];
           last_byte := Some [x62] |}
  = ({| port := {| in_waiting := []; written := [] |};
        current_parse := Some UBX;
        parse_data := singletons ([] ++ [x06; x04; x04]);
        last_byte := Some [x62] |},
     Ok None).
Proof.
  apply (parse_keeps_collecting_ubx
           {| port := {| in_waiting := [x06; x04; x04]; written := [] |};
              current_parse := Some UBX;
              parse_data := singletons [];
              last_byte := Some [x62] |}
           [] [x06; x04; x04] [x00; x00; x00; x00; x00; x0e; x64]).
  - reflexivity.
  - reflexivity.
  - reflexivity.
  - discriminate.
  - split; vm_compute; [discriminate|reflexivity].
  - discriminate.
Defined.

(** ** The stream parser on NMEA lines *)

Lemma loop_body_nmea_partial (self : UBX_receiver) (b : byte) :
  current_parse self = Some NMEA -> b <> LF ->
  loop_body self [b]
  = (with_parse self (Some NMEA) (parse_data self ++ [[b]]), Next).
Proof.
  intros Hmode Hb. unfold loop_body. rewrite Hmode.
  rewrite (ubx_turn_other_mode self [b] Hmode).
  unfold nmea_turn, current_parse_is. rewrite Hmode.
  cbn [mode_eqb with_parse parse_data].
  assert (E : bytes_eqb [b] [x0a] = false).
  { apply bytes_eqb_neq. intros H. injection H as ->. now apply Hb. }
  now rewrite E.
Qed.

Lemma loop_body_nmea_complete (self : UBX_receiver) :
  current_parse self = Some NMEA ->
  loop_body self [LF]
  = (reset_data (with_parse self (Some NMEA) (parse_data self ++ [[LF]])),
     Return (Some (frame_result NMEA (parse_data self ++ [[LF]])))).
Proof.
  intros Hmode. unfold loop_body. rewrite Hmode.
  rewrite (ubx_turn_other_mode self [LF] Hmode).
  now apply nmea_turn_complete.
Qed.

Lemma parse_loop_nmea_collect (line : bytes) :
  forall (self : UBX_receiver) (rest : bytes),
    current_parse self = Some NMEA -> ~ In LF line ->
    parse_loop (line ++ LF :: rest) self
    = ({| port := {| in_waiting := rest; written := written (port self) |};
          current_parse := None; parse_data := [];
          last_byte := last_byte self |},
       Ok (Some (frame_result NMEA
                   (parse_data self ++ singletons (line ++ [LF]))))).
Proof.
  induction line as [|b line IH]; intros self rest Hmode Hn.
  - cbn [app parse_loop].
    set (self1 := with_port self _).
    now rewrite (loop_body_nmea_complete self1 Hmode).
  - cbn [app parse_loop].
    set (self1 := with_port self _).
    assert (Hb : b <> LF) by (intros ->; apply Hn; now left).
    rewrite (loop_body_nmea_partial self1 b Hmode Hb).
    rewrite IH; [|reflexivity|intros Hin; apply Hn; now right].
    cbn [with_parse parse_data port last_byte self1 with_port written].
    rewrite <- app_assoc. reflexivity.
Qed.

Lemma parse_loop_nmea_partial (chunk : bytes) :
  forall (self : UBX_receiver),
    current_parse self = Some NMEA -> ~ In LF chunk -> chunk <> [] ->
    parse_loop chunk self
    = ({| port := {| in_waiting := []; written := written (port self) |};
          current_parse := Some NMEA;
          parse_data := parse_data self ++ singletons chunk;
          last_byte := last_byte self |},
       Ok None).
Proof.
  induction chunk as [|b chunk IH]; intros self Hmode Hn Hne; [congruence|].
  cbn [parse_loop].
  set (self1 := with_port self _).
  assert (Hb : b <> LF) by (intros ->; apply Hn; now left).
  rewrite (loop_body_nmea_partial self1 b Hmode Hb).
  destruct chunk as [|b2 chunk].
  - reflexivity.
  - rewrite IH; [|reflexivity|intros Hin; apply Hn; now right|discriminate].
    cbn [with_parse parse_data port last_byte self1 with_port written].
    rewrite <- app_assoc. reflexivity.
Qed.

(** One call of [parse] while an NMEA line is collected reads up to the
    first line feed and no further: it returns the outcome of decoding the
    line, leaves what follows the line feed in the port and the parser
    idle. *)
Theorem parse_reads_to_line_feed
  (self : UBX_receiver) (line rest : bytes) :
  current_parse self = Some NMEA ->
  in_waiting (port self) = line ++ LF :: rest ->
  ~ In LF line ->
  parse self
  = ({| port := {| in_waiting := rest; written := written (port self) |};
        current_parse := None; parse_data := [];
        last_byte := last_byte self |},
     Ok (Some match NMEA_message_init
                      (Encoded (List.concat (parse_data self) ++ line ++ [LF])) with
              | Ok message => nmea_message message
              | Raise _ => invalid_nmea_message
              end)).
Proof.
  intros Hmode Hin Hn. unfold parse. rewrite Hin.
  rewrite (parse_loop_nmea_collect line self rest Hmode Hn).
  unfold frame_result. now rewrite concat_app, concat_singletons.
Qed.

Lemma parse_reads_to_line_feed_witness :
  parse {| port := {| in_waiting := skipn 1 (ascii_bytes rmc_body)
                                    ++ ascii_bytes "*6A" ++ [CR]
                                    ++ LF :: ascii_bytes "$G";
                      written := [] |};
           current_parse := Some NMEA;
           parse_data := [ascii_bytes "G"];
           last_byte := Some (ascii_bytes "G") |}
  = ({| port := {| in_waiting := ascii_bytes "$G"; written := [] |};
        current_parse := None; parse_data := [];
        last_byte := Some (ascii_bytes "G") |},
     Ok (Some match NMEA_message_init
                      (Encoded (List.concat [ascii_bytes "G"]
                                ++ (skipn 1 (ascii_bytes rmc_body)
                                    ++ ascii_bytes "*6A" ++ [CR])
                                ++ [LF])) with
              | Ok message => nmea_message message
              | Raise _ => invalid_nmea_message
              end)).
Proof.
  apply (parse_reads_to_line_feed
           {| port := {| in_waiting := skipn 1 (ascii_bytes rmc_body)
                                       ++ ascii_bytes "*6A" ++ [CR]
                                       ++ LF :: ascii_bytes "$G";
                         written := [] |};
              current_parse := Some NMEA;
              parse_data := [ascii_bytes "G"];
              last_byte := Some (ascii_bytes "G") |}
           (skipn 1 (ascii_bytes rmc_body) ++ ascii_bytes "*6A" ++ [CR])
           (ascii_bytes "$G")).
  - reflexivity.
  - vm_compute. reflexivity.
  - vm_compute. intuition discriminate.
Defined.

(** Without a line feed the line never ends: a call of [parse] in NMEA
    mode reads every waiting byte into the buffer and returns [None], and
    the parser keeps collecting, whatever the bytes are (a UBX sync marker
    among them starts nothing). *)
Theorem parse_keeps_collecting_nmea (self : UBX_receiver) (chunk : bytes) :
  current_parse self = Some NMEA ->
  in_waiting (port self) = chunk ->
  chunk <> [] ->
  ~ In LF chunk ->
  parse self
  = ({| port := {| in_waiting := []; written := written (port self) |};
        current_parse := Some NMEA;
        parse_data := parse_data self ++ singletons chunk;
        last_byte := last_byte self |},
     Ok None).
Proof.
  intros Hmode Hin Hne Hn. unfold parse. rewrite Hin.
  now apply parse_loop_nmea_partial.
Qed.

Lemma parse_keeps_collecting_nmea_witness :
  parse {| port := {| in_waiting := [xb5; x62; x06; x04]; written := [] |};
           current_parse := Some NMEA;
           parse_data := [ascii_bytes "G"];
           last_byte := Some (ascii_bytes "G") |}
  = ({| port := {| in_waiting := []; written := [] |};
        current_parse := Some NMEA;
        parse_data := [ascii_bytes "G"] ++ singletons [xb5; x62; x06; x04];
        last_byte := Some (ascii_bytes "G") |},
     Ok None).
Proof.
  apply (parse_keeps_collecting_nmea
           {| port := {| in_waiting := [xb5; x62; x06; x04]; written := [] |};
              current_parse := Some NMEA;
              parse_data := [ascii_bytes "G"];
              last_byte := Some (ascii_bytes "G") |}
           [xb5; x62; x06; x04]).
  - reflexivity.
  - reflexivity.
  - discriminate.
  - vm_compute. intuition discriminate.
Defined.

Lemma feed_each_nmea (line : bytes) :
  forall (self : UBX_receiver),
    current_parse self = Some NMEA -> ~ In LF line ->
    feed_each self (line ++ [LF])
    = ({| port := {| in_waiting := []; written := written (port self) |};
          current_parse := None; parse_data := [];
          last_byte := last_byte self |},
       repeat (Ok None) (List.length line)
       ++ [Ok (Some (frame_result NMEA
                       (parse_data self ++ singletons (line ++ [LF]))))]).
Proof.
  induction line as [|b line IH]; intros self Hmode Hn.
  - cbn [app feed_each]. unfold feed, parse. cbn [port in_waiting with_port].
    set (self0 := with_port self _).
    pose proof (parse_loop_nmea_collect [] self0 [] Hmode ltac:(intros [])) as P.
    cbn [app] in P. rewrite P. reflexivity.
  - cbn [app feed_each]. unfold feed, parse. cbn [port in_waiting with_port].
    set (self0 := with_port self _).
    assert (Hn1 : ~ In LF [b]).
    { intros [H|[]]. apply Hn. now left. }
    rewrite (parse_loop_nmea_partial [b] self0 Hmode Hn1 ltac:(discriminate)).
    erewrite IH; [|reflexivity|intros Hin; apply Hn; now right].
    cbn [parse_data port written last_byte self0 with_port List.length repeat app].
    rewrite <- app_assoc. reflexivity.
Qed.

(** The NMEA counterpart of C6, for every line: from any idle state, the
    bytes ['$'], ['G'], a line without line feed and a line feed, fed one
    byte per call, make every call but the last return [None] and the last
    return the outcome of decoding the bytes from ['G'] to the line feed
    (the ['$'] is not part of what is decoded); the parser is idle again
    afterwards. *)
Theorem NMEA_line_byte_by_byte
  (p : Port) (buffer : list bytes) (last : option bytes) (line : bytes) :
  ~ In LF line ->
  feed_each {| port := p; current_parse := None;
               parse_data := buffer; last_byte := last |}
            ("$"%byte :: "G"%byte :: line ++ [LF])
  = (idle_state {| in_waiting := []; written := written p |} (Some ["G"%byte]),
     repeat (Ok None) (List.length line + 2)
     ++ [Ok (Some match NMEA_message_init
                          (Encoded ("G"%byte :: line ++ [LF])) with
                  | Ok message => nmea_message message
                  | Raise _ => invalid_nmea_message
                  end)]).
Proof.
  intros Hn.
  change ("$"%byte :: "G"%byte :: line ++ [LF])
    with (["$"%byte; "G"%byte] ++ (line ++ [LF])).
  rewrite feed_each_app.
  assert (Hs : feed_each {| port := p; current_parse := None;
                            parse_data := buffer; last_byte := last |}
                         ["$"%byte; "G"%byte]
               = ({| port := {| in_waiting := []; written := written p |};
                     current_parse := Some NMEA; parse_data := [["G"%byte]];
                     last_byte := Some ["G"%byte] |}, [Ok None; Ok None]))
    by (vm_compute; reflexivity).
  rewrite Hs. cbn [fst snd].
  erewrite (feed_each_nmea line); [|reflexivity|exact Hn].
  cbn [fst snd app parse_data port written last_byte]. unfold idle_state.
  f_equal.
  - rewrite Nat.add_comm. cbn [Nat.add repeat app]. do 3 f_equal.
    unfold frame_result. cbn [List.concat app]. now rewrite concat_singletons.
Qed.

Lemma NMEA_line_byte_by_byte_witness :
  feed_each {| port := idle_port; current_parse := None;
               parse_data := []; last_byte := None |}
            ("$"%byte :: "G"%byte :: ascii_bytes "PGLL,*00" ++ [LF])
  = (idle_state {| in_waiting := []; written := written idle_port |}
                (Some ["G"%byte]),
     repeat (Ok None) (List.length (ascii_bytes "PGLL,*00") + 2)
     ++ [Ok (Some match NMEA_message_init
                          (Encoded ("G"%byte :: ascii_bytes "PGLL,*00" ++ [LF])) with
                  | Ok message => nmea_message message
                  | Raise _ => invalid_nmea_message
                  end)]).
Proof.
  apply (NMEA_line_byte_by_byte idle_port [] None (ascii_bytes "PGLL,*00")).
  vm_compute. intuition discriminate.
Defined.

(** ** What [parse] does in every state *)

(** While idle, [parse] consumes exactly one byte, however many are
    waiting, returns [None] and records the byte as [last_byte].  It starts
    collecting a UBX frame, with an empty buffer, exactly when the byte is
    0x62 and [last_byte] was 0xB5; when it stays idle the frame buffer is
    untouched. *)
Theorem parse_while_idle (self : UBX_receiver) (b : byte) (rest : bytes) :
  current_parse self = None ->
  in_waiting (port self) = b :: rest ->
  exists self',
    parse self = (self', Ok None)
    /\ port self' = {| in_waiting := rest; written := written (port self) |}
    /\ last_byte self' = Some [b]
    /\ (current_parse self' = Some UBX
        <-> b = x62 /\ last_byte self = Some [xb5])
    /\ (current_parse self' = Some UBX -> parse_data self' = [])
    /\ (current_parse self' = None -> parse_data self' = parse_data self).
Proof.
  intros Hidle Hin. rewrite (parse_cons self b rest Hin). cbv zeta.
  set (self1 := with_port self _).
  unfold loop_body. change (current_parse self1) with (current_parse self).
  rewrite Hidle. unfold idle_turn.
  change (last_byte_is self1) with (last_byte_is self).
  destruct (bytes_eqb [b] [x62] && last_byte_is self [xb5]) eqn:C1.
  - apply andb_true_iff in C1 as [E L]. apply bytes_eqb_eq in E.
    injection E as ->. apply last_byte_is_spec in L.
    eexists. split; [reflexivity|]. cbn. repeat split; auto. discriminate.
  - assert (N1 : ~ (b = x62 /\ last_byte self = Some [xb5])).
    { intros [-> L]. apply last_byte_is_spec in L. rewrite L in C1.
      rewrite (proj2 (bytes_eqb_eq _ _) eq_refl) in C1. discriminate C1. }
    destruct (bytes_eqb [b] ["G"%byte] && last_byte_is self ["$"%byte]).
    + eexists. split; [reflexivity|]. cbn.
      repeat split; try discriminate; tauto.
    + eexists. split; [reflexivity|]. cbn. rewrite Hidle.
      repeat split; try discriminate; tauto.
Qed.

Lemma parse_while_idle_witness :
  exists self',
    parse {| port := {| in_waiting := x62 :: [x06; x04]; written := [] |};
             current_parse := None; parse_data := [[x01]];
             last_byte := Some [xb5] |}
    = (self', Ok None)
    /\ port self' = {| in_waiting := [x06; x04]; written := [] |}
    /\ last_byte self' = Some [x62]
    /\ (current_parse self' = Some UBX
        <-> x62 = x62 /\ Some [xb5] = Some [xb5])
    /\ (current_parse self' = Some UBX -> parse_data self' = [])
    /\ (current_parse self' = None -> parse_data self' = [[x01]]).
Proof.
  apply (parse_while_idle
           {| port := {| in_waiting := x62 :: [x06; x04]; written := [] |};
              current_parse := None; parse_data := [[x01]];
              last_byte := Some [xb5] |} x62 [x06; x04]);
    reflexivity.
Defined.

Lemma loop_body_safe (self : UBX_receiver) (byte : bytes) :
  port (fst (loop_body self byte)) = port self
  /\ forall e, snd (loop_body self byte) <> Propagate e.
Proof.
  destruct (current_parse self) as [[|]|] eqn:Hmode.
  - (* UBX *)
    destruct (Z.lt_ge_cases (len (parse_data self ++ [byte])) 4) as [Hs|Hs].
    + rewrite (loop_body_ubx_partial self byte Hmode (or_introl Hs)).
      cbn. split; [reflexivity|discriminate].
    + destruct (Z.eq_dec (len (parse_data self ++ [byte]))
                  (declared_length (parse_data self ++ [byte]) + 6)) as [He|He].
      * rewrite (loop_body_ubx_complete self byte Hmode ltac:(lia) He).
        cbn. split; [reflexivity|discriminate].
      * rewrite (loop_body_ubx_partial self byte Hmode (or_intror He)).
        cbn. split; [reflexivity|discriminate].
  - (* NMEA *)
    unfold loop_body. rewrite Hmode, (ubx_turn_other_mode self byte Hmode).
    unfold nmea_turn, current_parse_is. rewrite Hmode. cbn [mode_eqb].
    destruct (bytes_eqb byte [x0a]); [|cbn; split; [reflexivity|discriminate]].
    match goal with
    | |- context [match ?x with Ok _ => _ | Raise _ => _ end] =>
        destruct x as [m|e] eqn:E
    end.
    + cbn. split; [reflexivity|discriminate].
    + rewrite (NMEA_message_init_raises _ _ E).
      cbn. split; [reflexivity|discriminate].
  - unfold loop_body. rewrite Hmode. unfold idle_turn. cbn [fst snd].
    split; [|discriminate].
    destruct (_ && _); [reflexivity|]. destruct (_ && _); reflexivity.
Qed.

Lemma parse_loop_safe (waiting : bytes) :
  forall self : UBX_receiver,
    (exists v, snd (parse_loop waiting self) = Ok v)
    /\ written (port (fst (parse_loop waiting self))) = written (port self)
    /\ (exists n, in_waiting (port (fst (parse_loop waiting self)))
                  = skipn n waiting \/ waiting = []).
Proof.
  induction waiting as [|b rest IH]; intros self.
  - cbn. split; [eauto|]. split; [reflexivity|]. exists 0%nat. now right.
  - cbn [parse_loop].
    set (self1 := with_port self _).
    destruct (loop_body_safe self1 [b]) as [Hp Hn].
    destruct (loop_body self1 [b]) as [self2 t]. cbn [fst snd] in Hp, Hn.
    destruct t as [v|e|].
    + cbn [fst snd]. rewrite Hp. split; [eauto|]. split; [reflexivity|].
      exists 1%nat. now left.
    + now destruct (Hn e).
    + destruct (IH self2) as (Hv & Hw & n & Hi).
      split; [exact Hv|]. split; [rewrite Hw, Hp; reflexivity|].
      destruct Hi as [Hi|Hi].
      * exists (S n). now left.
      * exists 1%nat. left. subst rest. cbn [parse_loop fst]. now rewrite Hp.
Qed.

(** In no state does an exception leave [parse], and [parse] never writes
    to the port; what it leaves waiting is a tail of what was waiting. *)
Theorem parse_never_raises (self : UBX_receiver) :
  (exists v, snd (parse self) = Ok v)
  /\ written (port (fst (parse self))) = written (port self)
  /\ exists n, in_waiting (port (fst (parse self)))
               = skipn n (in_waiting (port self)).
Proof.
  unfold parse.
  destruct (parse_loop_safe (in_waiting (port self)) self) as (Hv & Hw & n & Hi).
  split; [exact Hv|]. split; [exact Hw|].
  destruct Hi as [Hi|Hi]; [eauto|].
  exists 0%nat. rewrite Hi. cbn. exact Hi.
Qed.

(** ** The configuration builders *)


Lemma arg_bytes_some (a : arg) (x : bytes) (payload : bytes) (rest : list arg) :
  arg_bytes a = Some x ->
  set_val_payload (a :: rest) payload = set_val_payload rest (payload ++ x).
Proof.
  intros H. cbn [set_val_payload]. destruct a as [n|s|b|b|]; cbn in *.
  - destruct (byte_of_int n) as [y|e]; [|discriminate].
    injection H as <-. reflexivity.
  - destruct (config_lookup s) as [y|e]; [|discriminate].
    injection H as <-. reflexivity.
  - injection H as <-. reflexivity.
  - injection H as <-. reflexivity.
  - discriminate.
Qed.

Lemma set_val_payload_ok (args : list arg) :
  forall (payload bs : bytes),
    args_payload args = Some bs ->
    set_val_payload args payload = Ok (payload ++ bs).
Proof.
  induction args as [|a rest IH]; intros payload bs H; cbn [args_payload] in H.
  - injection H as <-. cbn. now rewrite app_nil_r.
  - destruct (arg_bytes a) as [x|] eqn:Ea; [|discriminate].
    destruct (args_payload rest) as [y|] eqn:Er; [|discriminate].
    injection H as <-. rewrite (arg_bytes_some a x payload rest Ea).
    rewrite (IH (payload ++ x) y eq_refl). now rewrite app_assoc.
Qed.


Lemma even_length_mod_2 {A : Type} (l : list A) :
  Nat.even (List.length l) = true -> len l mod 2 = 0.
Proof.
  intros H. apply Nat.even_spec in H as [k Hk]. unfold len. rewrite Hk.
  replace (Z.of_nat (2 * k)) with (Z.of_nat k * 2) by lia.
  apply Z.mod_mul. lia.
Qed.

Lemma set_val_even (self : UBX_receiver) (args : list arg) :
  Nat.even (List.length args) = true ->
  set_val self args
  = match (payload <- set_val_payload args valset_header ;;
           ubx_msg [x06] [x8a] payload) with
    | Ok msg => (write self msg, Ok tt)
    | Raise e => (self, Raise e)
    end.
Proof.
  intros H. unfold set_val. now rewrite (even_length_mod_2 args H).
Qed.

(** [set_val] on arguments it accepts: with an even number of arguments,
    each an integer in [range(0, 256)], a name of [ubx_config_dict] or a
    [bytes] object, that add at most 251 bytes to the four of the header,
    it writes one frame to the port and nothing else; the frame decodes to
    class 0x06, id 0x8A and the header followed by the bytes of the
    arguments, in order. *)
Theorem set_val_writes_one_frame
  (self : UBX_receiver) (args : list arg) (bs : bytes) :
  Nat.even (List.length args) = true ->
  args_payload args = Some bs ->
  (List.length bs <= 251)%nat ->
  exists frame m,
    set_val self args = (write self frame, Ok tt)
    /\ UBX_message_init (Bytes frame) = Ok m
    /\ ubx_class m = 6 /\ ubx_id m = 138
    /\ payload m = valset_header ++ bs.
Proof.
  intros He Ha Hl. rewrite (set_val_even self args He).
  rewrite (set_val_payload_ok args valset_header bs Ha). cbn [bind].
  destruct (built_frame x06 x8a (valset_header ++ bs))
    as (frame & E & _ & _ & Hd & Hc & Hi & Hp).
  { rewrite length_app. cbn [valset_header List.length]. lia. }
  rewrite E. exists (sync ++ frame), (decoded frame). auto.
Qed.

Lemma set_val_writes_one_frame_witness :
  exists frame m,
    set_val (new_receiver idle_port) [AStr "GLL_UART1"; AInt 1]
    = (write (new_receiver idle_port) frame, Ok tt)
    /\ UBX_message_init (Bytes frame) = Ok m
    /\ ubx_class m = 6 /\ ubx_id m = 138
    /\ payload m = valset_header ++ [xca; x00; x91; x20; x01].
Proof.
  apply (set_val_writes_one_frame (new_receiver idle_port)
           [AStr "GLL_UART1"; AInt 1] [xca; x00; x91; x20; x01]).
  - reflexivity.
  - reflexivity.
  - cbn. lia.
Defined.



(** The one-byte length field caps what [set_val] can send: arguments that
    add more than 251 bytes to the header are all accepted, and then the
    builder raises and nothing is written. *)
Theorem set_val_payload_too_long
  (self : UBX_receiver) (args : list arg) (bs : bytes) :
  Nat.even (List.length args) = true ->
  args_payload args = Some bs ->
  (251 < List.length bs)%nat ->
  set_val self args = (self, Raise (ValueError bytes_out_of_range)).
Proof.
  intros He Ha Hl. rewrite (set_val_even self args He).
  rewrite (set_val_payload_ok args valset_header bs Ha). cbn [bind].
  rewrite ubx_msg_long; [reflexivity|].
  rewrite length_app. cbn [valset_header List.length]. lia.
Qed.

Lemma set_val_payload_too_long_witness :
  set_val (new_receiver idle_port) [ABytes (repeat x00 200); ABytes (repeat x01 52)]
  = (new_receiver idle_port, Raise (ValueError bytes_out_of_range)).
Proof.
  apply (set_val_payload_too_long (new_receiver idle_port)
           [ABytes (repeat x00 200); ABytes (repeat x01 52)]
           (repeat x00 200 ++ repeat x01 52 ++ [])).
  - reflexivity.
  - reflexivity.
  - rewrite !length_app, !repeat_length. cbn. lia.
Defined.

Lemma config_lookup_raises (name : string) (e : exn) :
  config_lookup name = Raise e -> e = KeyError name.
Proof.
  unfold config_lookup. destruct (find _ ubx_config_dict); congruence.
Qed.

Lemma config_lookup_length (name : string) (k : bytes) :
  config_lookup name = Ok k -> List.length k = 4%nat.
Proof.
  unfold config_lookup.
  destruct (find (fun kv => String.eqb (fst kv) name) ubx_config_dict)
    as [kv|] eqn:E; [|discriminate].
  intros H. injection H as <-. apply find_some in E as [Hin _].
  cbn in Hin.
  repeat (destruct Hin as [<-|Hin]; [reflexivity|]). contradiction.
Qed.

Lemma config_pairs_ok (names : list string) (value : bytes) :
  Forall (fun name => exists k, config_lookup name = Ok k) names ->
  exists vals,
    config_pairs names value = Ok vals
    /\ List.length vals = (2 * List.length names)%nat
    /\ args_payload vals = Some (key_value_bytes value names)
    /\ List.length (key_value_bytes value names)
       = ((4 + List.length value) * List.length names)%nat.
Proof.
  induction 1 as [|name names [k Hk] _ (vals & E & L & P & B)].
  - exists []. repeat split. cbn [key_value_bytes flat_map List.length]. lia.
  - exists (ABytes k :: ABytes value :: vals).
    cbn [config_pairs]. rewrite Hk, E. cbn [bind].
    repeat split.
    + cbn [List.length]. lia.
    + cbn [args_payload arg_bytes key_value_bytes flat_map]. rewrite P, Hk.
      fold (key_value_bytes value names). now rewrite <- app_assoc.
    + cbn [key_value_bytes flat_map]. rewrite Hk.
      fold (key_value_bytes value names).
      rewrite !length_app, B, (config_lookup_length name k Hk).
      cbn [List.length]. lia.
Qed.

Lemma config_pairs_unknown (good : list string) (value : bytes) :
  forall (bad : string) (rest : list string),
    Forall (fun name => exists k, config_lookup name = Ok k) good ->
    (forall k, config_lookup bad <> Ok k) ->
    config_pairs (good ++ bad :: rest) value = Raise (KeyError bad).
Proof.
  induction good as [|name good IH]; intros bad rest Hg Hb.
  - cbn [app config_pairs].
    destruct (config_lookup bad) as [k|e] eqn:E; [now destruct (Hb k)|].
    now rewrite (config_lookup_raises _ _ E).
  - inversion Hg as [|? ? [k Hk] Hg']; subst. cbn [app config_pairs].
    rewrite Hk. cbn [bind]. now rewrite (IH bad rest Hg' Hb).
Qed.

Lemma even_double (n : nat) : Nat.even (2 * n) = true.
Proof.
  apply Nat.even_spec. now exists n.
Qed.

Lemma config_frame (self : UBX_receiver) (names : list string) (value : bytes) :
  Forall (fun name => exists k, config_lookup name = Ok k) names ->
  (List.length names <= 50)%nat ->
  List.length value = 1%nat ->
  exists vals frame m,
    config_pairs names value = Ok vals
    /\ set_val self vals = (write self frame, Ok tt)
    /\ UBX_message_init (Bytes frame) = Ok m
    /\ ubx_class m = 6 /\ ubx_id m = 138
    /\ payload m = valset_header ++ key_value_bytes value names.
Proof.
  intros Hk Hn Hv.
  destruct (config_pairs_ok names value Hk) as (vals & E & L & P & B).
  assert (He : Nat.even (List.length vals) = true)
    by (rewrite L; apply even_double).
  assert (Hl : (List.length (key_value_bytes value names) <= 251)%nat)
    by (rewrite B, Hv; lia).
  destruct (built_frame x06 x8a (valset_header ++ key_value_bytes value names))
    as (frame & Ef & _ & _ & Hd & Hc & Hi & Hp).
  { rewrite length_app. cbn [valset_header List.length]. lia. }
  exists vals, (sync ++ frame), (decoded frame).
  split; [exact E|]. split; [|auto].
  rewrite (set_val_even self vals He).
  rewrite (set_val_payload_ok vals valset_header _ P). cbn [bind].
  now rewrite Ef.
Qed.

(** [ubx_config_enable] and [ubx_config_disable] on known names, at most
    fifty of them: one frame is written, of class 0x06 and id 0x8A, whose
    payload is the header followed, for every name in order, by its four
    key bytes and the value byte, 1 to enable and 0 to disable. *)
Theorem config_enable_disable_write_keys
  (self : UBX_receiver) (names : list string) :
  Forall (fun name => exists k, config_lookup name = Ok k) names ->
  (List.length names <= 50)%nat ->
  (exists frame m,
      ubx_config_enable self names = (write self frame, Ok tt)
      /\ UBX_message_init (Bytes frame) = Ok m
      /\ ubx_class m = 6 /\ ubx_id m = 138
      /\ payload m = valset_header ++ key_value_bytes [x01] names)
  /\ (exists frame m,
         ubx_config_disable self names = (write self frame, Ok tt)
         /\ UBX_message_init (Bytes frame) = Ok m
         /\ ubx_class m = 6 /\ ubx_id m = 138
         /\ payload m = valset_header ++ key_value_bytes [x00] names).
Proof.
  intros Hk Hn. split.
  - destruct (config_frame self names [x01] Hk Hn eq_refl)
      as (vals & frame & m & E & S & R).
    exists frame, m. unfold ubx_config_enable. rewrite E. auto.
  - destruct (config_frame self names [x00] Hk Hn eq_refl)
      as (vals & frame & m & E & S & R).
    exists frame, m. unfold ubx_config_disable. rewrite E. auto.
Qed.

Lemma config_enable_disable_write_keys_witness :
  (exists frame m,
      ubx_config_enable (new_receiver idle_port) ["GGA_UART1"; "RMC_UART1"]%string
      = (write (new_receiver idle_port) frame, Ok tt)
      /\ UBX_message_init (Bytes frame) = Ok m
      /\ ubx_class m = 6 /\ ubx_id m = 138
      /\ payload m = valset_header
                     ++ key_value_bytes [x01] ["GGA_UART1"; "RMC_UART1"]%string)
  /\ (exists frame m,
         ubx_config_disable (new_receiver idle_port) ["GGA_UART1"; "RMC_UART1"]%string
         = (write (new_receiver idle_port) frame, Ok tt)
         /\ UBX_message_init (Bytes frame) = Ok m
         /\ ubx_class m = 6 /\ ubx_id m = 138
         /\ payload m = valset_header
                        ++ key_value_bytes [x00] ["GGA_UART1"; "RMC_UART1"]%string).
Proof.
  apply (config_enable_disable_write_keys (new_receiver idle_port)
           ["GGA_UART1"; "RMC_UART1"]%string).
  - repeat constructor; eexists; reflexivity.
  - cbn. lia.
Defined.

(** An unknown name makes [ubx_config_enable] and [ubx_config_disable]
    raise the [KeyError] of the first such name; nothing is written, even
    for the known names before it. *)
Theorem config_unknown_name_writes_nothing
  (self : UBX_receiver) (good rest : list string) (bad : string) :
  Forall (fun name => exists k, config_lookup name = Ok k) good ->
  (forall k, config_lookup bad <> Ok k) ->
  ubx_config_enable self (good ++ bad :: rest) = (self, Raise (KeyError bad))
  /\ ubx_config_disable self (good ++ bad :: rest) = (self, Raise (KeyError bad)).
Proof.
  intros Hg Hb. unfold ubx_config_enable, ubx_config_disable.
  now rewrite !(config_pairs_unknown good _ bad rest Hg Hb).
Qed.

Lemma config_unknown_name_writes_nothing_witness :
  ubx_config_enable (new_receiver idle_port)
                    (["GGA_UART1"%string] ++ "GGA_UART2"%string :: ["RMC_UART1"%string])
  = (new_receiver idle_port, Raise (KeyError "GGA_UART2"))
  /\ ubx_config_disable (new_receiver idle_port)
                        (["GGA_UART1"%string] ++ "GGA_UART2"%string :: ["RMC_UART1"%string])
     = (new_receiver idle_port, Raise (KeyError "GGA_UART2")).
Proof.
  apply (config_unknown_name_writes_nothing (new_receiver idle_port)
           ["GGA_UART1"%string] ["RMC_UART1"%string] "GGA_UART2"%string).
  - repeat constructor; eexists; reflexivity.
  - intros k H. discriminate H.
Defined.

(** More than fifty names do not fit the one-byte length field: all the
    names are looked up, then the builder raises and nothing is written. *)
Theorem config_too_many_names
  (self : UBX_receiver) (names : list string) :
  Forall (fun name => exists k, config_lookup name = Ok k) names ->
  (50 < List.length names)%nat ->
  ubx_config_enable self names = (self, Raise (ValueError bytes_out_of_range))
  /\ ubx_config_disable self names = (self, Raise (ValueError bytes_out_of_range)).
Proof.
  intros Hk Hn.
  assert (G : forall value : bytes, List.length value = 1%nat ->
    exists vals,
      config_pairs names value = Ok vals
      /\ set_val self vals = (self, Raise (ValueError bytes_out_of_range))).
  { intros value Hv.
    destruct (config_pairs_ok names value Hk) as (vals & E & L & P & B).
    exists vals. split; [exact E|].
    assert (He : Nat.even (List.length vals) = true)
      by (rewrite L; apply even_double).
    rewrite (set_val_even self vals He).
    rewrite (set_val_payload_ok vals valset_header _ P). cbn [bind].
    rewrite ubx_msg_long; [reflexivity|].
    rewrite length_app, B, Hv. cbn [valset_header List.length]. lia. }
  split.
  - destruct (G [x01] eq_refl) as (vals & E & S).
    unfold ubx_config_enable. now rewrite E.
  - destruct (G [x00] eq_refl) as (vals & E & S).
    unfold ubx_config_disable. now rewrite E.
Qed.

Lemma config_too_many_names_witness :
  ubx_config_enable (new_receiver idle_port) (repeat "GGA_UART1"%string 51)
  = (new_receiver idle_port, Raise (ValueError bytes_out_of_range))
  /\ ubx_config_disable (new_receiver idle_port) (repeat "GGA_UART1"%string 51)
     = (new_receiver idle_port, Raise (ValueError bytes_out_of_range)).
Proof.
  apply (config_too_many_names (new_receiver idle_port)
           (repeat "GGA_UART1"%string 51)).
  - apply Forall_forall. intros x Hx. apply repeat_spec in Hx. subst x.
    eexists. reflexivity.
  - rewrite repeat_length. lia.
Defined.


Lemma every_key_known :
  Forall (fun name => exists k, config_lookup name = Ok k) (map fst ubx_config_dict).
Proof.
  repeat constructor; eexists; reflexivity.
Qed.

(** [ubx_config_enable_all] and [ubx_config_disable_all] succeed on any
    receiver: each writes one frame whose payload is the header followed by
    the eleven keys of [ubx_config_dict], in the order of the dictionary,
    each with its value byte, 1 or 0. *)
Theorem config_all_write_every_key (self : UBX_receiver) :
  (exists frame m,
      ubx_config_enable_all self = (write self frame, Ok tt)
      /\ UBX_message_init (Bytes frame) = Ok m
      /\ payload m
         = valset_header
           ++ flat_map (fun kv => snd kv ++ [x01]) ubx_config_dict)
  /\ (exists frame m,
         ubx_config_disable_all self = (write self frame, Ok tt)
         /\ UBX_message_init (Bytes frame) = Ok m
         /\ payload m
            = valset_header
              ++ flat_map (fun kv => snd kv ++ [x00]) ubx_config_dict).
Proof.
  split.
  - destruct (config_frame self (map fst ubx_config_dict) [x01] every_key_known
                ltac:(cbn; lia) eq_refl)
      as (vals & frame & m & E & S & D & _ & _ & P).
    exists frame, m. unfold ubx_config_enable_all, ubx_config_enable.
    rewrite E. repeat split; auto.
  - destruct (config_frame self (map fst ubx_config_dict) [x00] every_key_known
                ltac:(cbn; lia) eq_refl)
      as (vals & frame & m & E & S & D & _ & _ & P).
    exists frame, m. unfold ubx_config_disable_all, ubx_config_disable.
    rewrite E. repeat split; auto.
Qed.
